(** * Galactic Empire cost-of-living pipeline: a shallow embedding

    The notebook [Galatic_Empire_Cost_Living.ipynb] aggregates mobility pings
    per H3 cell in batches, left-joins the aggregated features onto the
    labeled and unlabeled tables, trains a regressor and writes predictions
    back.  This file embeds the cells of the notebook as Rocq functions and
    proves the properties stated about them.

    Conventions of the embedding:
    - a pandas cell value is a [value]: a string, an integer, a float64
      (a primitive float) or the missing marker;
    - a DataFrame is its column labels and its rows, both in order;
    - the dictionary [hex_features] is a [gmap string Features];
    - an exception raised by pandas or by the estimator is [None];
    - the H3 indexer, the groupby mean and the scikit-learn estimator are
      external: they are parameters of the development ([Externals],
      [Estimator]). *)

From Stdlib Require Import ZArith PrimFloat.
From stdpp Require Import gmap strings list sorting.

Local Open Scope Z_scope.

(** * Part I: the program *)

(** ** Data model *)

(** One row of [mobility_data.parquet].  The identifier column may hold
    nulls: [None] is a null [device_id]. *)
Record MobilityRecord := {
  device_id : option string;
  lat : float;
  lon : float;
  timestamp : Z
}.

(** The array [row[1:].values] stored per cell in [hex_features]:
    [device_count], [visit_count], [avg_time]. *)
Record Features := {
  device_count : Z;
  visit_count : Z;
  avg_time : float
}.

(** [hex_features[hex_id] += row[1:].values]: element-wise addition, on
    integers for the two counts and on float64 for the timestamp mean. *)
Definition add_features (old new : Features) : Features :=
  {| device_count := device_count old + device_count new;
     visit_count := visit_count old + visit_count new;
     avg_time := PrimFloat.add (avg_time old) (avg_time new) |}.

(** [groupby] sorts the group keys; cells are strings and are compared
    as such. *)
Definition hex_le (x y : string) : Prop := String.leb x y = true.

#[global] Instance hex_le_dec : RelDecision hex_le.
Proof. intros x y. unfold hex_le. apply _. Defined.

(** ** Streaming Aggregator (notebook cell 5) *)

(** The external parts of the aggregation: the H3 indexer
    [h3.latlng_to_cell(lat, lon, resolution)], the resolution
    [desired_resolution = h3.get_resolution(example_hex)] read once from the
    labeled table, and the ["mean"] aggregation of pandas over the
    timestamps of a group. *)
Class Externals := {
  latlng_to_cell : float → float → Z → string;
  desired_resolution : Z;
  mean : list Z → float
}.

Section aggregator.

Context `{ext : Externals}.

(** [chunk_df["hex_id"] = chunk_df.apply(lambda row: ...)]. *)
Definition hex_of (r : MobilityRecord) : string :=
  latlng_to_cell (lat r) (lon r) desired_resolution.

(** The cells of a chunk, one per record. *)
Definition cells (chunk : list MobilityRecord) : list string :=
  hex_of <$> chunk.

(** The keys of [chunk_df.groupby("hex_id")]: distinct, sorted. *)
Definition group_keys (chunk : list MobilityRecord) : list string :=
  merge_sort hex_le (remove_dups (cells chunk)).

(** The records of one group. *)
Definition group_of (k : string) (chunk : list MobilityRecord)
  : list MobilityRecord :=
  filter (λ r, hex_of r = k) chunk.

(** [.agg(device_count=("device_id", "nunique"),
          visit_count=("device_id", "count"),
          avg_time=("timestamp", "mean"))] on one group.  Both ["nunique"]
    and ["count"] skip the null identifiers of the group. *)
Definition agg (g : list MobilityRecord) : Features :=
  {| device_count := Z.of_nat (length (remove_dups (omap device_id g)));
     visit_count := Z.of_nat (length (omap device_id g));
     avg_time := mean (timestamp <$> g) |}.

(** [grouped]: one row per key, after [reset_index()]. *)
Definition grouped (chunk : list MobilityRecord) : list (string * Features) :=
  (λ k, (k, agg (group_of k chunk))) <$> group_keys chunk.

(** The body of [for _, row in grouped.iterrows()]. *)
Definition update (hex_features : gmap string Features)
    (row : string * Features) : gmap string Features :=
  let hex_id := row.1 in
  match hex_features !! hex_id with
  | None => <[hex_id := row.2]> hex_features
  | Some old => <[hex_id := add_features old row.2]> hex_features
  end.

(** The body of [for batch in mobility.iter_batches(...)]. *)
Definition process_batch (hex_features : gmap string Features)
    (chunk : list MobilityRecord) : gmap string Features :=
  foldl update hex_features (grouped chunk).

(** The whole loop, started from [hex_features = {}]. *)
Definition aggregate (batches : list (list MobilityRecord))
  : gmap string Features :=
  foldl process_batch ∅ batches.

(** Number of records of a dataset that fall in cell [c]. *)
Definition records_in (c : string) (l : list MobilityRecord) : Z :=
  Z.of_nat (length (group_of c l)).

(** Number of those records that carry a device identifier. *)
Definition identified_in (c : string) (l : list MobilityRecord) : Z :=
  Z.of_nat (length (omap device_id (group_of c l))).

(** The loop started from any dictionary, for the inductions below. *)
Definition run (hf : gmap string Features)
    (batches : list (list MobilityRecord)) : gmap string Features :=
  foldl process_batch hf batches.

End aggregator.


(** The visit count read from the dictionary, 0 for an absent cell. *)
Definition visits (hf : gmap string Features) (c : string) : Z :=
  from_option visit_count 0 (hf !! c).

(** The device count read from the dictionary, 0 for an absent cell. *)
Definition devices (hf : gmap string Features) (c : string) : Z :=
  from_option device_count 0 (hf !! c).

(** The sum of a list of integers. *)
Definition total (l : list Z) : Z := foldr Z.add 0 l.

(** [acc += m] on the timestamp field of a cell that may not be there yet:
    the first mean is stored, the later ones are added to it. *)
Definition add_means (acc : option float) (ms : list float) : option float :=
  foldl (λ acc m, Some (from_option (λ a, PrimFloat.add a m) m acc)) acc ms.

Section aggregator_measures.

Context `{ext : Externals}.

(** The number of distinct devices among the records of [l] in cell [c]:
    what ["nunique"] gives on the group of [c]. *)
Definition distinct_devices (c : string) (l : list MobilityRecord) : Z :=
  Z.of_nat (length (remove_dups (omap device_id (group_of c l)))).

(** The timestamp means of cell [c] in the batches that have a record in
    [c], in stream order. *)
Definition batch_means (c : string) (batches : list (list MobilityRecord))
  : list float :=
  (λ b, mean (timestamp <$> group_of c b))
    <$> filter (λ b, c ∈ cells b) batches.

End aggregator_measures.

(** ** Tables *)

(** A cell of a DataFrame.  [NaN] is the missing marker of pandas
    ([NaN] or [None]); a float64 that is itself not-a-number counts as
    missing too. *)
Inductive value :=
  | Str (s : string)
  | Int (z : Z)
  | Flt (f : float)
  | NaN.

(** A DataFrame: the column labels and the rows, in order.  The row index
    is the default range index throughout the notebook and is not kept. *)
Record DataFrame := {
  columns : list string;
  rows : list (list value)
}.

(** Every row has one cell per column. *)
Definition wf_rows (df : DataFrame) : Prop :=
  Forall (λ row, length row = length (columns df)) (rows df).

(** [pd.isna]. *)
Definition isna (v : value) : bool :=
  match v with
  | NaN => true
  | Flt f => PrimFloat.is_nan f
  | _ => false
  end.

(** The cell of a row at a position; a cell that is not there reads as
    missing. *)
Definition cell_at (row : list value) (i : nat) : value :=
  default NaN (row !! i).

(** Position of the first column with a label ([columns.get_loc]). *)
Fixpoint col_index (c : string) (cols : list string) : option nat :=
  match cols with
  | [] => None
  | c' :: cols' =>
      if decide (c = c') then Some 0%nat else S <$> col_index c cols'
  end.

(** [df.fillna(0)]: every missing cell of every column becomes 0. *)
Definition fill0 (v : value) : value :=
  if isna v then Int 0 else v.

Definition fillna (df : DataFrame) : DataFrame :=
  {| columns := columns df;
     rows := (λ row : list value, fill0 <$> row) <$> rows df |}.

(** The cells of a row whose column is kept by a mask. *)
Fixpoint select (mask : list bool) (row : list value) : list value :=
  match mask, row with
  | b :: mask', v :: row' =>
      if b then v :: select mask' row' else select mask' row'
  | _, _ => []
  end.

(** The mask that keeps the columns not named in [cs]. *)
Definition keep_mask (cs cols : list string) : list bool :=
  (λ c, bool_decide (c ∉ cs)) <$> cols.

(** [df.drop(columns=cs, errors='ignore')]. *)
Definition drop_ignore (cs : list string) (df : DataFrame) : DataFrame :=
  {| columns := filter (λ c, c ∉ cs) (columns df);
     rows := select (keep_mask cs (columns df)) <$> rows df |}.

(** [df.drop(columns=cs)]: a label that is not a column is a [KeyError]. *)
Definition drop_columns (cs : list string) (df : DataFrame)
  : option DataFrame :=
  if decide (Forall (λ c, c ∈ columns df) cs)
  then Some (drop_ignore cs df)
  else None.

(** [df[c]]: the cells of one column. *)
Definition getitem (c : string) (df : DataFrame) : option (list value) :=
  i ← col_index c (columns df);
  Some ((λ row, cell_at row i) <$> rows df).

(** [df[c] = vals]: overwrite the column in place when it exists, append
    it otherwise; a length mismatch is a [ValueError]. *)
Definition setitem (c : string) (vals : list value) (df : DataFrame)
  : option DataFrame :=
  if decide (length vals = length (rows df)) then
    match col_index c (columns df) with
    | Some i =>
        Some {| columns := columns df;
                rows := zip_with (λ row v, <[i := v]> row) (rows df) vals |}
    | None =>
        Some {| columns := columns df ++ [c];
                rows := zip_with (λ row v, row ++ [v]) (rows df) vals |}
    end
  else None.

(** [df.reindex(columns=cols, fill_value=fill)]: the columns become
    exactly [cols]; a label of [cols] that [df] has keeps its cells, one
    that [df] lacks is filled, and a column of [df] outside [cols] is
    left out. *)
Definition reindex_row (cols : list string) (fill : value)
    (old_cols : list string) (row : list value) : list value :=
  (λ c, match col_index c old_cols with
        | Some i => cell_at row i
        | None => fill
        end) <$> cols.

Definition reindex (cols : list string) (fill : value) (df : DataFrame)
  : DataFrame :=
  {| columns := cols;
     rows := reindex_row cols fill (columns df) <$> rows df |}.

(** Key equality of [merge]: equal strings, equal numbers, and a missing
    key matches a missing key. *)
Definition same_key (a b : value) : bool :=
  match a, b with
  | Str x, Str y => bool_decide (x = y)
  | Int x, Int y => bool_decide (x = y)
  | Flt x, Flt y => PrimFloat.eqb x y
  | NaN, NaN => true
  | _, _ => false
  end.

(** Column labels of a merge: the left labels, then the right labels
    without the key; a label on both sides gets the suffixes of pandas. *)
Definition merged_columns (on : string) (lcols rcols : list string)
  : list string :=
  ((λ c, if bool_decide (c ≠ on ∧ c ∈ rcols) then c +:+ "_x" else c)
     <$> lcols) ++
  ((λ c, if bool_decide (c ∈ lcols) then c +:+ "_y" else c)
     <$> filter (λ c, c ≠ on) rcols).

(** The dtype of a key column, as far as [merge] looks at it.  A column
    without a string cell is numeric ([int64] or [float64], the latter
    also for a column of empty cells); an object column is read as
    strings when it has a string cell and no integer cell. *)
Definition is_str (v : value) : bool :=
  match v with Str _ => true | _ => false end.

Definition is_int (v : value) : bool :=
  match v with Int _ => true | _ => false end.

Definition numeric_keys (keys : list value) : bool :=
  forallb (λ v, negb (is_str v)) keys.

Definition string_keys (keys : list value) : bool :=
  existsb is_str keys && forallb (λ v, negb (is_int v)) keys.

(** The key check of [merge]: when both key columns have rows, a numeric
    key column cannot be merged with a key column of strings
    ([ValueError: You are trying to merge on int64 and object columns]). *)
Definition merge_key_error (lk rk : list value) : bool :=
  match lk, rk with
  | [], _ | _, [] => false
  | _, _ =>
      (numeric_keys lk && string_keys rk) ||
      (string_keys lk && numeric_keys rk)
  end.

(** The cells of the column at a position. *)
Definition key_column (df : DataFrame) (i : nat) : list value :=
  (λ row, cell_at row i) <$> rows df.

(** The rows a left row yields in a left join: one per matching right
    row, or itself padded with missing cells when nothing matches. *)
Definition merge_row (li ri : nat) (right : DataFrame) (lrow : list value)
  : list (list value) :=
  match filter (λ rrow, same_key (cell_at rrow ri) (cell_at lrow li))
          (rows right) with
  | [] => [lrow ++ replicate (length (columns right) - 1) NaN]
  | matches => (λ rrow, lrow ++ delete ri rrow) <$> matches
  end.

(** [left.merge(right, on=on, how="left")]; a missing key column is a
    [KeyError], key columns of clashing dtypes a [ValueError]. *)
Definition merge_left (left right : DataFrame) (on : string)
  : option DataFrame :=
  li ← col_index on (columns left);
  ri ← col_index on (columns right);
  if merge_key_error (key_column left li) (key_column right ri) then None
  else Some {| columns := merged_columns on (columns left) (columns right);
               rows := rows left ≫= merge_row li ri right |}.

(** ** Feature Joiner (notebook cells 7, 11 and 16) *)

(** The row of [mobility_features_df] for one entry of the dictionary. *)
Definition feature_cells (f : Features) : list value :=
  [Int (device_count f); Int (visit_count f); Flt (avg_time f)].

Definition feature_row (kf : string * Features) : list value :=
  Str kf.1 :: feature_cells kf.2.

(** [pd.DataFrame.from_dict(hex_features, orient='index', columns=[...])
      .reset_index()] with the index column renamed to [hex_id]. *)
Definition mobility_features_df (hex_features : gmap string Features)
  : DataFrame :=
  {| columns := ["hex_id"; "device_count"; "visit_count"; "avg_time"];
     rows := feature_row <$> map_to_list hex_features |}.

(** [table.merge(mobility_features_df, on="hex_id", how="left").fillna(0)],
    the expression behind both [train_merged] and [test_merged]. *)
Definition join_features (table : DataFrame)
    (hex_features : gmap string Features) : option DataFrame :=
  fillna <$> merge_left table (mobility_features_df hex_features) "hex_id".

(** The [hex_id] column of the table, at position [li], clashes with the
    keys of the mapping: the join raises the [ValueError] of
    [merge_key_error]. *)
Definition key_clash (table : DataFrame) (li : nat)
    (hex_features : gmap string Features) : bool :=
  merge_key_error (key_column table li)
    (key_column (mobility_features_df hex_features) 0).

(** The features the join finds for a key. *)
Definition lookup_features (hex_features : gmap string Features)
    (key : value) : option Features :=
  match key with
  | Str k => hex_features !! k
  | _ => None
  end.

(** What the join does to one row, read off the dictionary. *)
Definition joined_row (hex_features : gmap string Features) (li : nat)
    (lrow : list value) : list value :=
  fill0 <$> (lrow ++ match lookup_features hex_features (cell_at lrow li) with
                     | Some f => feature_cells f
                     | None => [NaN; NaN; NaN]
                     end).

(** The feature cells a row gets for its key, after [fillna(0)]. *)
Definition feature_vector (hex_features : gmap string Features)
    (key : value) : list value :=
  fill0 <$> match lookup_features hex_features key with
            | Some f => feature_cells f
            | None => [NaN; NaN; NaN]
            end.

(** ** Resolution of the labeled data (notebook cell 3) *)

(** [example_hex = train["hex_id"].iloc[0]]: a table without the column
    is a [KeyError], a table without rows an [IndexError]. *)
Definition example_hex (train : DataFrame) : option value :=
  ids ← getitem "hex_id" train;
  head ids.

(** [h3.get_resolution(example_hex)], the indexer call being a parameter. *)
Definition infer_resolution (get_resolution : value → option Z)
    (train : DataFrame) : option Z :=
  example_hex train ≫= get_resolution.

(** ** Coverage diagnostics (notebook cell 9) *)

(** [Series.unique()]: the distinct values, in order of first appearance. *)
Fixpoint unique_values (l : list value) : list value :=
  match l with
  | [] => []
  | v :: l' => v :: filter (λ w, ¬ same_key w v) (unique_values l')
  end.

(** [set(a) - set(b)] on lists of distinct values. *)
Definition set_difference (a b : list value) : list value :=
  filter (λ v, ¬ existsb (same_key v) b) a.

(** [missing_train_hex = train_hex_ids - mobility_hex_ids] (and the same
    for the unlabeled table); the notebook prints its length. *)
Definition missing_hex (table : DataFrame)
    (hex_features : gmap string Features) : option (list value) :=
  table_hex_ids ← getitem "hex_id" table;
  mobility_hex_ids ← getitem "hex_id" (mobility_features_df hex_features);
  Some (set_difference (unique_values table_hex_ids)
          (unique_values mobility_hex_ids)).

(** ** Regression Trainer / Evaluator and Predictor *)

(** The scikit-learn calls of the notebook, with their keyword arguments
    fixed ([test_size=0.2, random_state=42], the hyperparameters of the
    regressor).  [RandomForestRegressor] and [XGBRegressor] are two
    instances.  A raised exception is [None]. *)
Class Estimator := {
  model : Type;
  train_test_split :
    DataFrame → list value →
    option (DataFrame * DataFrame * list value * list value);
  fit : DataFrame → list value → option model;
  predict : model → DataFrame → option (list float);
  mean_squared_error : list value → list float → option float
}.

(** Cells 13-14 (and 22-23): the fitted model, [X_train.columns] and the
    validation MSE. *)
Definition Trainer `{est : Estimator} (train_merged : DataFrame)
  : option (model * list string * float) :=
  X ← drop_columns ["cost_of_living"; "hex_id"] train_merged;
  y ← getitem "cost_of_living" train_merged;
  split ← train_test_split X y;
  let '(X_train, X_val, y_train, y_val) := split in
  m ← fit X_train y_train;
  y_pred ← predict m X_val;
  mse ← mean_squared_error y_val y_pred;
  Some (m, columns X_train, mse).

(** Cell 17: [test_X = test_merged.drop(columns=["hex_id"], errors='ignore')]
    then [test_X.reindex(columns=X_train.columns, fill_value=0)]. *)
Definition align (X_train_columns : list string) (test_merged : DataFrame)
  : DataFrame :=
  reindex X_train_columns (Int 0) (drop_ignore ["hex_id"] test_merged).

(** Cells 16-18: join, align, predict, and
    [test["cost_of_living"] = model.predict(test_X)]. *)
Definition Predictor `{est : Estimator} (m : model)
    (X_train_columns : list string) (hex_features : gmap string Features)
    (test : DataFrame) : option DataFrame :=
  test_merged ← join_features test hex_features;
  y_pred ← predict m (align X_train_columns test_merged);
  setitem "cost_of_living" (Flt <$> y_pred) test.

(** ** A reference estimator and sample data

    The external parts are instantiated here so that the pipeline can be
    run on concrete tables: a two-cell indexer, the arithmetic mean of the
    timestamps, and a regressor that predicts the mean of its training
    targets after checking that every cell it is given is a number. *)

Fixpoint pos_to_float (p : positive) : float :=
  match p with
  | xH => 1%float
  | xO p' => PrimFloat.mul 2%float (pos_to_float p')
  | xI p' => PrimFloat.add (PrimFloat.mul 2%float (pos_to_float p')) 1%float
  end.

Definition Z_to_float (z : Z) : float :=
  match z with
  | Z0 => 0%float
  | Zpos p => pos_to_float p
  | Zneg p => PrimFloat.opp (pos_to_float p)
  end.

Definition float_mean (l : list float) : float :=
  PrimFloat.div (foldr PrimFloat.add 0%float l)
    (Z_to_float (Z.of_nat (length l))).

Definition mean_timestamp (ts : list Z) : float :=
  float_mean (Z_to_float <$> ts).

(** Southern latitudes fall in cell [h1], the others in [h2]. *)
Definition two_cells (lat lon : float) (resolution : Z) : string :=
  if PrimFloat.ltb lat 0%float then "h1" else "h2".

(** The number an estimator reads in a cell, if any. *)
Definition as_number (v : value) : option float :=
  match v with
  | Int z => Some (Z_to_float z)
  | Flt f => if PrimFloat.is_nan f then None else Some f
  | _ => None
  end.

(** The last fifth of the rows (rounded up) is held out; an empty
    training part is an error, as is a target of another length. *)
Definition holdout_split (X : DataFrame) (y : list value)
  : option (DataFrame * DataFrame * list value * list value) :=
  let n := length (rows X) in
  let n_train := (n - (n + 4) / 5)%nat in
  if decide (length y = n ∧ n_train ≠ 0%nat) then
    Some ({| columns := columns X; rows := take n_train (rows X) |},
          {| columns := columns X; rows := drop n_train (rows X) |},
          take n_train y, drop n_train y)
  else None.

Definition squared_error (a b : float) : float :=
  PrimFloat.mul (PrimFloat.sub a b) (PrimFloat.sub a b).

Definition mean_regressor : Estimator := {|
  model := float;
  train_test_split := holdout_split;
  fit X y :=
    _ ← mapM (mapM as_number) (rows X);
    targets ← mapM as_number y;
    Some (float_mean targets);
  predict m X :=
    _ ← mapM (mapM as_number) (rows X);
    Some ((λ _, m) <$> rows X);
  mean_squared_error y_true y_pred :=
    targets ← mapM as_number y_true;
    if decide (length targets = length y_pred)
    then Some (float_mean (zip_with squared_error targets y_pred))
    else None
|}.

(** Labeled table of the scenario: three cells with their cost of living. *)
Definition train_sample : DataFrame :=
  {| columns := ["hex_id"; "cost_of_living"];
     rows := [[Str "h1"; Flt 0.25%float];
              [Str "h2"; Flt 0.5%float];
              [Str "h3"; Flt 0.75%float]] |}.

(** The same table with the target of [h2] missing. *)
Definition train_missing_target : DataFrame :=
  {| columns := ["hex_id"; "cost_of_living"];
     rows := [[Str "h1"; Flt 0.25%float];
              [Str "h2"; NaN];
              [Str "h3"; Flt 0.75%float]] |}.

(** Unlabeled table: the target column is there and empty. *)
Definition test_sample : DataFrame :=
  {| columns := ["hex_id"; "cost_of_living"];
     rows := [[Str "h2"; NaN]; [Str "h3"; NaN]] |}.

Definition ping (device : string) (lat : float) (t : Z) : MobilityRecord :=
  {| device_id := Some device; lat := lat; lon := 0%float;
     timestamp := t |}.

(** A ping whose device identifier is null. *)
Definition anonymous_ping (lat : float) (t : Z) : MobilityRecord :=
  {| device_id := None; lat := lat; lon := 0%float; timestamp := t |}.

(** One batch with two pings in [h1], one of them anonymous, and one
    anonymous ping in [h2]. *)
Definition anonymous_batches : list (list MobilityRecord) :=
  [[ping "a" (-1)%float 10; anonymous_ping (-1)%float 20;
    anonymous_ping 1%float 30]].

(** Five pings in [h1] and two in [h2], none in [h3]. *)
Definition mobility_sample : list MobilityRecord :=
  [ping "a" (-1)%float 10; ping "b" (-1)%float 20; ping "a" 1%float 30;
   ping "a" (-2)%float 40; ping "c" (-1)%float 50; ping "b" 2%float 60;
   ping "b" (-3)%float 70].

(** The sample instance of the external parts. *)
Definition sample_externals : Externals :=
  {| latlng_to_cell := two_cells;
     desired_resolution := 8;
     mean := mean_timestamp |}.

Definition sample_aggregate (batches : list (list MobilityRecord))
  : gmap string Features :=
  aggregate (ext := sample_externals) batches.

(** The aggregated features of [mobility_sample], one batch. *)
Definition features_sample : gmap string Features :=
  sample_aggregate [mobility_sample].

(** Two ways of cutting [mobility_sample] into batches. *)
Definition one_batch : list (list MobilityRecord) := [mobility_sample].

Definition two_batches : list (list MobilityRecord) :=
  [take 3 mobility_sample; drop 3 mobility_sample].

(** A labeled table with a text column among the features. *)
Definition train_with_text : DataFrame :=
  {| columns := ["hex_id"; "cost_of_living"; "region"];
     rows := [[Str "h1"; Flt 0.25%float; Str "north"];
              [Str "h2"; Flt 0.5%float; Str "south"]] |}.

Definition test_X_sample : DataFrame :=
  {| columns := ["device_count"; "visit_count"; "avg_time"];
     rows := [[Int 2; Int 2; Flt 45%float]; [Int 0; Int 0; Int 0]] |}.

(** The two batches in the other order. *)
Definition swapped_batches : list (list MobilityRecord) :=
  [drop 3 mobility_sample; take 3 mobility_sample].

(** A labeled table that lacks the target column. *)
Definition train_without_target : DataFrame :=
  {| columns := ["hex_id"]; rows := [[Str "h1"]; [Str "h2"]] |}.

(** A labeled table whose cell identifiers were read as integers. *)
Definition train_numeric_keys : DataFrame :=
  {| columns := ["hex_id"; "cost_of_living"];
     rows := [[Int 1; Flt 0.25%float]; [Int 2; Flt 0.5%float]] |}.

(** The unlabeled table after a first prediction run wrote 0.5 in it. *)
Definition test_predicted : DataFrame :=
  {| columns := ["hex_id"; "cost_of_living"];
     rows := [[Str "h2"; Flt 0.5%float]; [Str "h3"; Flt 0.5%float]] |}.

(** * Part II: properties *)

(** ** Streaming Aggregator *)

Section aggregator_properties.

Context `{ext : Externals}.

(** *** One row of [grouped] merged into the dictionary *)

Lemma lookup_update hf k v c :
  update hf (k, v) !! c =
    if decide (k = c)
    then Some (from_option (λ old, add_features old v) v (hf !! k))
    else hf !! c.
Proof.
  unfold update; simpl.
  destruct (hf !! k) as [old|] eqn:Hk; simpl;
    rewrite lookup_insert; by case_decide.
Qed.

Lemma lookup_foldl_update (g : string → Features) keys hf c :
  NoDup keys →
  foldl update hf ((λ k, (k, g k)) <$> keys) !! c =
    if decide (c ∈ keys)
    then Some (from_option (λ old, add_features old (g c)) (g c) (hf !! c))
    else hf !! c.
Proof.
  intros Hnd. revert hf.
  induction Hnd as [|k keys Hk Hnd IH]; intros hf; csimpl.
  - done.
  - rewrite IH, lookup_update.
    destruct (decide (k = c)) as [->|Hne];
      destruct (decide (c ∈ keys)) as [Hin|Hnin]; try done.
    + by rewrite decide_True by left.
    + by rewrite decide_True by (by right).
    + rewrite decide_False; [done|].
      intros [?|?]%elem_of_cons; [congruence|done].
Qed.

(** *** The keys of a batch *)

Lemma NoDup_group_keys chunk : NoDup (group_keys chunk).
Proof.
  unfold group_keys. rewrite merge_sort_Permutation.
  apply NoDup_remove_dups.
Qed.

Lemma elem_of_group_keys c chunk : c ∈ group_keys chunk ↔ c ∈ cells chunk.
Proof.
  unfold group_keys. rewrite merge_sort_Permutation.
  apply elem_of_remove_dups.
Qed.

Lemma elem_of_cells c chunk : c ∈ cells chunk ↔ group_of c chunk ≠ [].
Proof.
  unfold cells, group_of. rewrite list_elem_of_fmap. split.
  - intros (r & -> & Hr) Hnil.
    assert (r ∈ filter (λ r', hex_of r' = hex_of r) chunk) as Hin
      by (by apply list_elem_of_filter).
    rewrite Hnil in Hin. by apply not_elem_of_nil in Hin.
  - intros Hne. destruct (filter _ chunk) as [|r l] eqn:Hf; [done|].
    assert (r ∈ filter (λ r', hex_of r' = c) chunk) as Hin
      by (rewrite Hf; left).
    apply list_elem_of_filter in Hin as [Hc Hin]. eauto.
Qed.

(** *** One batch merged into the dictionary *)

Lemma lookup_process_batch hf chunk c :
  process_batch hf chunk !! c =
    if decide (c ∈ cells chunk)
    then Some (from_option (λ old, add_features old (agg (group_of c chunk)))
                 (agg (group_of c chunk)) (hf !! c))
    else hf !! c.
Proof.
  unfold process_batch, grouped.
  rewrite (lookup_foldl_update (λ k, agg (group_of k chunk)))
    by apply NoDup_group_keys.
  destruct (decide (c ∈ cells chunk)) as [Hin|Hnin].
  - by rewrite decide_True by (by apply elem_of_group_keys).
  - by rewrite decide_False by (by rewrite elem_of_group_keys).
Qed.

(** *** The whole stream *)

Lemma aggregate_run batches : aggregate batches = run ∅ batches.
Proof. done. Qed.

Lemma cells_app l1 l2 : cells (l1 ++ l2) = cells l1 ++ cells l2.
Proof. apply fmap_app. Qed.

Lemma records_in_app c l1 l2 :
  records_in c (l1 ++ l2) = records_in c l1 + records_in c l2.
Proof.
  unfold records_in, group_of. rewrite filter_app, length_app. lia.
Qed.

Lemma records_in_pos c l : c ∈ cells l → 1 ≤ records_in c l.
Proof.
  rewrite elem_of_cells. unfold records_in.
  destruct (group_of c l); [done|]. simpl length. lia.
Qed.

Lemma identified_in_app c l1 l2 :
  identified_in c (l1 ++ l2) = identified_in c l1 + identified_in c l2.
Proof.
  unfold identified_in, group_of.
  rewrite filter_app, omap_app, length_app. lia.
Qed.

Lemma identified_in_zero c l : c ∉ cells l → identified_in c l = 0.
Proof.
  rewrite elem_of_cells. unfold identified_in. intros Hnil.
  destruct (group_of c l); [done|]. by destruct Hnil.
Qed.

Lemma identified_in_nonneg c l : 0 ≤ identified_in c l.
Proof. unfold identified_in. lia. Qed.

Lemma visit_count_agg c l :
  visit_count (agg (group_of c l)) = identified_in c l.
Proof. done. Qed.

Lemma visits_process_batch hf chunk c :
  visits (process_batch hf chunk) c = visits hf c + identified_in c chunk.
Proof.
  unfold visits. rewrite lookup_process_batch.
  destruct (decide (c ∈ cells chunk)) as [Hin|Hnin].
  - destruct (hf !! c) as [old|]; cbn [from_option];
      [change (visit_count (add_features old ?x))
         with (visit_count old + visit_count x)|];
      rewrite visit_count_agg; lia.
  - rewrite (identified_in_zero _ _ Hnin). lia.
Qed.

Lemma visits_run hf batches c :
  visits (run hf batches) c =
  visits hf c + identified_in c (concat batches).
Proof.
  revert hf. induction batches as [|b bs IH]; intros hf; simpl.
  - unfold identified_in; simpl. lia.
  - rewrite IH, visits_process_batch, identified_in_app. lia.
Qed.

Lemma is_Some_process_batch hf chunk c :
  is_Some (process_batch hf chunk !! c) ↔
  is_Some (hf !! c) ∨ c ∈ cells chunk.
Proof.
  rewrite lookup_process_batch.
  destruct (decide (c ∈ cells chunk)) as [Hin|Hnin]; [|tauto].
  split; [by right | by eauto].
Qed.

Lemma is_Some_run hf batches c :
  is_Some (run hf batches !! c) ↔
  is_Some (hf !! c) ∨ c ∈ cells (concat batches).
Proof.
  revert hf. induction batches as [|b bs IH]; intros hf; simpl.
  - split; [by left|]. intros [?|Hin]; [done|].
    by apply not_elem_of_nil in Hin.
  - rewrite IH, is_Some_process_batch, cells_app, elem_of_app. tauto.
Qed.

(** The mapping from cell to visit count is a function of the
    concatenated dataset alone. *)
Lemma lookup_visit_counts batches c :
  (visit_count <$> aggregate batches) !! c =
    if decide (c ∈ cells (concat batches))
    then Some (identified_in c (concat batches))
    else None.
Proof.
  rewrite lookup_fmap, aggregate_run.
  pose proof (is_Some_run ∅ batches c) as Hdom.
  pose proof (visits_run ∅ batches c) as Hv.
  unfold visits in Hv. rewrite lookup_empty in Hdom, Hv. simpl in Hv.
  destruct (decide (c ∈ cells (concat batches))) as [Hin|Hnin].
  - destruct (proj2 Hdom (or_intror Hin)) as [f Hf].
    rewrite Hf in Hv |- *. simpl in *. f_equal. lia.
  - destruct (run ∅ batches !! c) as [f|] eqn:Hf; [|done].
    destruct (proj1 Hdom (ex_intro _ f eq_refl)) as [[? ?]|?]; done.
Qed.

(** *** Counts of one group *)






Lemma identified_in_records c l :
  (∀ r, r ∈ l → is_Some (device_id r)) →
  identified_in c l = records_in c l.
Proof.
  intros Hall. unfold identified_in, records_in, group_of. f_equal.
  induction l as [|r l IH]; [done|].
  assert (∀ r', r' ∈ l → is_Some (device_id r')) as Hall'
    by (intros r' Hr'; apply Hall; by right).
  destruct (decide (hex_of r = c)) as [Hc|Hc].
  - rewrite filter_cons_True by done. csimpl.
    destruct (Hall r) as [d ->]; [left|]. simpl. by rewrite IH.
  - rewrite filter_cons_False by done. by apply IH.
Qed.



(** *** Properties of the Streaming Aggregator *)

(** C1: two partitionings of the same mobility dataset into batches
    (the same records in the same order, cut at different places) give
    the same mapping from cell identifier to [visit_count]. *)
Theorem visit_count_batch_independent
    (batches1 batches2 : list (list MobilityRecord)) :
  concat batches1 = concat batches2 →
  visit_count <$> aggregate batches1 = visit_count <$> aggregate batches2.
Proof.
  intros Heq. apply map_eq; intros c.
  by rewrite !lookup_visit_counts, Heq.
Qed.

(** C9: the keys of the final mapping are exactly the cells that some
    record of some batch maps to at the fixed resolution. *)
Theorem aggregate_keys (batches : list (list MobilityRecord)) :
  dom (aggregate batches) =
  list_to_set (C := gset string) (cells (concat batches)).
Proof.
  apply set_eq; intros c.
  rewrite elem_of_dom, elem_of_list_to_set, aggregate_run, is_Some_run.
  rewrite lookup_empty. split; [|by right].
  intros [[? ?]|?]; done.
Qed.


(** X1: the [visit_count] of a cell of the final mapping is the number of
    records of the whole dataset that fall in that cell and carry a
    device identifier; it is the number of records of the cell when no
    identifier of the dataset is null. *)
Theorem visit_count_counts_identified
    (batches : list (list MobilityRecord)) (c : string) (f : Features) :
  aggregate batches !! c = Some f →
  visit_count f = identified_in c (concat batches) ∧
  ((∀ r, r ∈ concat batches → is_Some (device_id r)) →
   visit_count f = records_in c (concat batches)).
Proof.
  intros Hf. pose proof (lookup_visit_counts batches c) as Hv.
  rewrite lookup_fmap, Hf in Hv. simpl in Hv.
  case_decide; [|done]. injection Hv as ->. split; [done|].
  apply identified_in_records.
Qed.

(** *** Further properties of the aggregation loop *)

Lemma run_app hf batches1 batches2 :
  run hf (batches1 ++ batches2) = run (run hf batches1) batches2.
Proof. apply foldl_app. Qed.

Lemma elem_of_cells_concat c batches :
  c ∈ cells (concat batches) ↔ Exists (λ b, c ∈ cells b) batches.
Proof.
  induction batches as [|b bs IH]; simpl.
  - split; [by intros ?%not_elem_of_nil | by intros ?%Exists_nil].
  - rewrite cells_app, elem_of_app, Exists_cons, IH. done.
Qed.

Lemma distinct_devices_nonneg c l : 0 ≤ distinct_devices c l.
Proof. unfold distinct_devices. lia. Qed.

Lemma distinct_devices_zero c l : c ∉ cells l → distinct_devices c l = 0.
Proof.
  rewrite elem_of_cells. unfold distinct_devices. intros Hnil.
  destruct (group_of c l); [done|]. by destruct Hnil.
Qed.

Lemma length_remove_dups_app {A} `{EqDecision A} (l1 l2 : list A) :
  (length (remove_dups (l1 ++ l2)) ≤
   length (remove_dups l1) + length (remove_dups l2))%nat.
Proof.
  induction l1 as [|x l1 IH]; simpl; [lia|].
  destruct (decide_rel (∈) x (l1 ++ l2)) as [Hin|Hnin];
    destruct (decide_rel (∈) x l1) as [Hin1|Hnin1]; simpl; try lia.
  destruct Hnin. apply elem_of_app. by left.
Qed.

Lemma distinct_devices_app c l1 l2 :
  distinct_devices c (l1 ++ l2) ≤
  distinct_devices c l1 + distinct_devices c l2.
Proof.
  unfold distinct_devices, group_of. rewrite filter_app, omap_app.
  pose proof (length_remove_dups_app
                (omap device_id (filter (λ r, hex_of r = c) l1))
                (omap device_id (filter (λ r, hex_of r = c) l2))).
  lia.
Qed.

Lemma distinct_devices_concat c batches :
  distinct_devices c (concat batches) ≤
  total (distinct_devices c <$> batches).
Proof.
  induction batches as [|b bs IH]; csimpl; [done|].
  pose proof (distinct_devices_app c b (concat bs)).
  unfold total in *. simpl. lia.
Qed.

Lemma total_nonneg (l : list Z) : Forall (λ z, 0 ≤ z) l → 0 ≤ total l.
Proof. induction 1; unfold total in *; simpl; lia. Qed.

Lemma total_distinct_nonneg c batches :
  0 ≤ total (distinct_devices c <$> batches).
Proof.
  apply total_nonneg, Forall_fmap, Forall_forall.
  intros b _. apply distinct_devices_nonneg.
Qed.

Lemma total_Permutation (l1 l2 : list Z) : l1 ≡ₚ l2 → total l1 = total l2.
Proof. induction 1; unfold total in *; simpl; lia. Qed.

Lemma devices_process_batch hf chunk c :
  devices (process_batch hf chunk) c =
  devices hf c + distinct_devices c chunk.
Proof.
  unfold devices. rewrite lookup_process_batch.
  destruct (decide (c ∈ cells chunk)) as [Hin|Hnin].
  - by destruct (hf !! c) as [old|].
  - rewrite (distinct_devices_zero _ _ Hnin). lia.
Qed.

Lemma devices_run hf batches c :
  devices (run hf batches) c =
  devices hf c + total (distinct_devices c <$> batches).
Proof.
  revert hf. induction batches as [|b bs IH]; intros hf; csimpl.
  - unfold total; simpl. lia.
  - rewrite IH, devices_process_batch. unfold total; simpl. lia.
Qed.

Lemma lookup_device_counts batches c :
  (device_count <$> aggregate batches) !! c =
    if decide (c ∈ cells (concat batches))
    then Some (total (distinct_devices c <$> batches))
    else None.
Proof.
  rewrite lookup_fmap, aggregate_run.
  pose proof (is_Some_run ∅ batches c) as Hdom.
  pose proof (devices_run ∅ batches c) as Hd.
  unfold devices in Hd. rewrite lookup_empty in Hdom, Hd. simpl in Hd.
  destruct (decide (c ∈ cells (concat batches))) as [Hin|Hnin].
  - destruct (proj2 Hdom (or_intror Hin)) as [f Hf].
    rewrite Hf in Hd |- *. simpl in *. f_equal. lia.
  - destruct (run ∅ batches !! c) as [f|] eqn:Hf; [|done].
    destruct (proj1 Hdom (ex_intro _ f eq_refl)) as [[? ?]|?]; done.
Qed.

Lemma times_process_batch hf chunk c :
  avg_time <$> process_batch hf chunk !! c =
    if decide (c ∈ cells chunk)
    then add_means (avg_time <$> hf !! c) [mean (timestamp <$> group_of c chunk)]
    else avg_time <$> hf !! c.
Proof.
  rewrite lookup_process_batch.
  destruct (decide (c ∈ cells chunk)); [|done].
  by destruct (hf !! c).
Qed.

Lemma add_means_app acc ms1 ms2 :
  add_means acc (ms1 ++ ms2) = add_means (add_means acc ms1) ms2.
Proof. apply foldl_app. Qed.

Lemma add_means_Some a ms :
  add_means (Some a) ms = Some (foldl PrimFloat.add a ms).
Proof. revert a. induction ms as [|m ms IH]; intros a; simpl; [done|]. apply IH. Qed.

Lemma times_run hf batches c :
  avg_time <$> run hf batches !! c =
  add_means (avg_time <$> hf !! c) (batch_means c batches).
Proof.
  revert hf. induction batches as [|b bs IH]; intros hf; [done|].
  cbn [run foldl]. change (foldl process_batch ?h bs) with (run h bs).
  rewrite IH, times_process_batch. unfold batch_means.
  destruct (decide (c ∈ cells b)) as [Hin|Hnin].
  - rewrite filter_cons_True by done. csimpl. done.
  - by rewrite filter_cons_False by done.
Qed.

(** X2: the aggregated [device_count] of a cell is the sum over the
    batches of the number of distinct devices of that cell within each
    batch.  It is never below the number of distinct devices of the cell
    in the whole dataset: a device seen in several batches is counted
    once per batch. *)
Theorem device_count_sums_batches
    (batches : list (list MobilityRecord)) (c : string) (f : Features) :
  aggregate batches !! c = Some f →
  device_count f = total (distinct_devices c <$> batches) ∧
  distinct_devices c (concat batches) ≤ device_count f.
Proof.
  intros Hf. pose proof (lookup_device_counts batches c) as Hd.
  rewrite lookup_fmap, Hf in Hd. simpl in Hd.
  case_decide; [|done]. injection Hd as ->. split; [done|].
  apply distinct_devices_concat.
Qed.

(** X3: the [avg_time] of a cell is not a mean over the dataset: it is
    the mean of the cell's timestamps in the first batch that has the
    cell, plus the cell's mean in each later batch that has it, added in
    stream order in float64. *)
Theorem avg_time_sums_batch_means
    (batches : list (list MobilityRecord)) (c : string) (f : Features) :
  aggregate batches !! c = Some f →
  ∃ m ms, batch_means c batches = m :: ms ∧
          avg_time f = foldl PrimFloat.add m ms.
Proof.
  intros Hf. pose proof (times_run ∅ batches c) as Ht.
  rewrite <- aggregate_run, Hf, lookup_empty in Ht. simpl in Ht.
  destruct (batch_means c batches) as [|m ms]; [done|].
  exists m, ms. split; [done|].
  change (add_means None (m :: ms)) with (add_means (Some m) ms) in Ht.
  rewrite add_means_Some in Ht. congruence.
Qed.

(** X4: the mapping from cell to [visit_count] depends on the records
    only as a multiset: reordering the records, or the batches, or moving
    records between batches, does not change it. *)
Theorem visit_count_order_independent
    (batches1 batches2 : list (list MobilityRecord)) :
  concat batches1 ≡ₚ concat batches2 →
  visit_count <$> aggregate batches1 = visit_count <$> aggregate batches2.
Proof.
  intros Hperm. apply map_eq; intros c. rewrite !lookup_visit_counts.
  assert (identified_in c (concat batches1) =
          identified_in c (concat batches2)) as ->.
  { unfold identified_in, group_of. by rewrite Hperm. }
  destruct (decide (c ∈ cells (concat batches1))) as [Hin|Hnin];
    destruct (decide (c ∈ cells (concat batches2))) as [Hin2|Hnin2];
    try done; exfalso; unfold cells in *.
  - apply Hnin2. by rewrite <- Hperm.
  - apply Hnin. by rewrite Hperm.
Qed.

(** X5: the mapping from cell to [device_count] does not depend on the
    order in which the batches are processed. *)
Theorem device_count_batch_order_independent
    (batches1 batches2 : list (list MobilityRecord)) :
  batches1 ≡ₚ batches2 →
  device_count <$> aggregate batches1 = device_count <$> aggregate batches2.
Proof.
  intros Hperm. apply map_eq; intros c. rewrite !lookup_device_counts.
  rewrite (total_Permutation (distinct_devices c <$> batches1)
             (distinct_devices c <$> batches2)) by (by rewrite Hperm).
  destruct (decide (c ∈ cells (concat batches1))) as [Hin|Hnin];
    destruct (decide (c ∈ cells (concat batches2))) as [Hin2|Hnin2];
    try done; exfalso.
  - apply Hnin2. apply elem_of_cells_concat. rewrite <- Hperm.
    by apply elem_of_cells_concat.
  - apply Hnin. apply elem_of_cells_concat. rewrite Hperm.
    by apply elem_of_cells_concat.
Qed.

(** X6: the mapping only grows: a cell present after a prefix of the
    stream is still present at the end, and neither of its counts has
    decreased. *)
Theorem aggregate_never_decrements
    (stream : list (list MobilityRecord)) (n : nat) (c : string)
    (f : Features) :
  aggregate (take n stream) !! c = Some f →
  ∃ f', aggregate stream !! c = Some f' ∧
        device_count f ≤ device_count f' ∧
        visit_count f ≤ visit_count f'.
Proof.
  intros Hf.
  assert (aggregate stream =
          run (aggregate (take n stream)) (drop n stream)) as Hsplit.
  { rewrite !aggregate_run, <- run_app. by rewrite take_drop. }
  pose proof (is_Some_run (aggregate (take n stream)) (drop n stream) c)
    as Hdom.
  destruct (proj2 Hdom) as [f' Hf']; [left; by eexists|].
  exists f'. rewrite Hsplit. split; [done|].
  pose proof (devices_run (aggregate (take n stream)) (drop n stream) c)
    as Hd.
  pose proof (visits_run (aggregate (take n stream)) (drop n stream) c)
    as Hv.
  unfold devices, visits in Hd, Hv. rewrite Hf, Hf' in Hd, Hv. simpl in *.
  pose proof (total_distinct_nonneg c (drop n stream)).
  pose proof (identified_in_nonneg c (concat (drop n stream))).
  lia.
Qed.

Lemma total_fmap_add {A} (f g : A → Z) (l : list A) :
  total ((λ x, f x + g x) <$> l) = total (f <$> l) + total (g <$> l).
Proof. induction l as [|x l IH]; unfold total in *; csimpl; lia. Qed.

Lemma total_indicator (keys : list string) x (w : Z) :
  NoDup keys →
  total ((λ k, if decide (x = k) then w else 0) <$> keys) =
  if decide (x ∈ keys) then w else 0.
Proof.
  induction 1 as [|k keys Hk Hnd IH]; [done|].
  change (total (?f <$> k :: keys)) with (f k + total (f <$> keys)).
  rewrite IH.
  destruct (decide (x = k)) as [->|Hne].
  - rewrite (decide_False (P := k ∈ keys)) by done.
    rewrite decide_True by left. lia.
  - destruct (decide (x ∈ keys)) as [Hin|Hnin].
    + by rewrite decide_True by (by right).
    + rewrite decide_False; [done|].
      intros [?|?]%elem_of_cons; done.
Qed.

Lemma identified_in_cons c r l :
  identified_in c (r :: l) =
  (if decide (hex_of r = c)
   then Z.of_nat (length (omap device_id [r])) else 0) +
  identified_in c l.
Proof.
  unfold identified_in, group_of.
  destruct (decide (hex_of r = c)) as [Heq|Hne].
  - rewrite filter_cons_True by done.
    change (r :: filter (λ r', hex_of r' = c) l)
      with ([r] ++ filter (λ r', hex_of r' = c) l).
    rewrite omap_app, length_app. lia.
  - rewrite filter_cons_False by done. lia.
Qed.

Lemma total_identified_in (keys : list string) l :
  NoDup keys → (∀ c, c ∈ cells l → c ∈ keys) →
  total ((λ k, identified_in k l) <$> keys) =
  Z.of_nat (length (omap device_id l)).
Proof.
  intros Hnd. induction l as [|r l IH]; intros Hsub.
  - clear Hsub Hnd. induction keys as [|k keys IHk]; [done|].
    change (total (?f <$> k :: keys)) with (f k + total (f <$> keys)).
    by rewrite IHk.
  - rewrite (list_fmap_ext _
               (λ k, (if decide (hex_of r = k)
                      then Z.of_nat (length (omap device_id [r])) else 0) +
                     identified_in k l) keys)
      by (intros; apply identified_in_cons).
    rewrite total_fmap_add, total_indicator by done.
    rewrite decide_True by (apply Hsub; left).
    rewrite IH by (intros c Hc; apply Hsub; by right).
    change (r :: l) with ([r] ++ l). rewrite omap_app, length_app. lia.
Qed.

(** X8: no identified record is lost and none is counted twice: over
    the cells of the final mapping the [visit_count]s add up to the number
    of records of the whole stream that carry a device identifier (all of
    them when no identifier is null). *)
Theorem visit_counts_sum_identified
    (batches : list (list MobilityRecord)) :
  total ((λ kf, visit_count kf.2) <$> map_to_list (aggregate batches)) =
  Z.of_nat (length (omap device_id (concat batches))).
Proof.
  rewrite <- (total_identified_in (map_to_list (aggregate batches)).*1).
  - rewrite <- list_fmap_compose. f_equal. apply list_fmap_ext.
    intros i [k f] Hin%list_elem_of_lookup_2%elem_of_map_to_list. simpl.
    pose proof (lookup_visit_counts batches k) as Hv.
    rewrite lookup_fmap, Hin in Hv. simpl in Hv.
    case_decide; congruence.
  - apply NoDup_fst_map_to_list.
  - intros c Hc.
    assert (is_Some (aggregate batches !! c)) as [f Hf].
    { rewrite aggregate_run. apply is_Some_run. by right. }
    apply list_elem_of_fmap. exists (c, f).
    split; [done | by apply elem_of_map_to_list].
Qed.

End aggregator_properties.

(** ** Feature Joiner *)

(** *** Column positions *)

Lemma col_index_Some c cols i :
  col_index c cols = Some i → cols !! i = Some c.
Proof.
  revert i. induction cols as [|c' cols IH]; intros i; simpl; [done|].
  destruct (decide (c = c')) as [->|Hne].
  - by intros [= <-].
  - destruct (col_index c cols) as [j|]; simpl; [|done].
    intros [= <-]. by apply IH.
Qed.

Lemma col_index_None c cols : col_index c cols = None ↔ c ∉ cols.
Proof.
  induction cols as [|c' cols IH]; simpl.
  - split; [intros _; apply not_elem_of_nil | done].
  - rewrite not_elem_of_cons. destruct (decide (c = c')) as [->|Hne].
    + split; [done | by intros [? _]].
    + destruct (col_index c cols) as [j|]; simpl.
      * split; [done|]. intros [_ Hnin]. by apply IH in Hnin.
      * split; [|done]. intros _. split; [done | by apply IH].
Qed.

Lemma col_index_is_Some c cols : is_Some (col_index c cols) ↔ c ∈ cols.
Proof.
  destruct (col_index c cols) as [i|] eqn:Hi.
  - split; [|by eauto]. intros _.
    by eapply list_elem_of_lookup_2, col_index_Some.
  - apply col_index_None in Hi. split; [by intros [? ?] | done].
Qed.

Lemma col_index_NoDup c cols i :
  NoDup cols → cols !! i = Some c → col_index c cols = Some i.
Proof.
  intros Hnd. revert i.
  induction Hnd as [|c' cols Hnin Hnd IH]; intros i; simpl; [done|].
  destruct i as [|i]; simpl.
  - intros [= ->]. by rewrite decide_True.
  - intros Hi. rewrite decide_False.
    + by rewrite (IH i Hi).
    + intros ->. by apply Hnin, list_elem_of_lookup_2 with i.
Qed.

(** *** The join, row by row *)

Lemma same_key_feature_row kf key :
  same_key (cell_at (feature_row kf) 0) key =
  match key with Str k => bool_decide (kf.1 = k) | _ => false end.
Proof. by destruct key. Qed.

Lemma filter_feature_rows_miss (l : list (string * Features)) key :
  (∀ k, key = Str k → k ∉ l.*1) →
  filter (λ rrow, same_key (cell_at rrow 0) key) (feature_row <$> l) = [].
Proof.
  induction l as [|kf l IH]; intros Hmiss; csimpl; [done|].
  rewrite filter_cons_False.
  - apply IH. intros k Hk. specialize (Hmiss k Hk).
    by apply not_elem_of_cons in Hmiss as [_ ?].
  - rewrite same_key_feature_row.
    destruct key as [k| | |]; simpl; try by intros [].
    intros Heq%bool_decide_unpack. apply (Hmiss k eq_refl).
    rewrite <- Heq. left.
Qed.

Lemma filter_feature_rows_hit (l : list (string * Features)) k f :
  NoDup l.*1 → (k, f) ∈ l →
  filter (λ rrow, same_key (cell_at rrow 0) (Str k)) (feature_row <$> l) =
    [feature_row (k, f)].
Proof.
  induction l as [|[k' f'] l IH]; csimpl; intros Hnd Hin.
  - by apply not_elem_of_nil in Hin.
  - apply NoDup_cons in Hnd as [Hnin Hnd].
    apply elem_of_cons in Hin as [[= <- <-]|Hin].
    + rewrite filter_cons_True
        by (rewrite same_key_feature_row; by apply bool_decide_pack).
      f_equal. apply filter_feature_rows_miss. by intros ? [= <-].
    + rewrite filter_cons_False; [by apply IH|].
      rewrite same_key_feature_row. simpl.
      intros Heq%bool_decide_unpack. subst k'. apply Hnin.
      by apply (list_elem_of_fmap_2 fst) in Hin.
Qed.

Lemma merge_row_features hf li lrow :
  merge_row li 0 (mobility_features_df hf) lrow =
    [lrow ++ match lookup_features hf (cell_at lrow li) with
             | Some f => feature_cells f
             | None => [NaN; NaN; NaN]
             end].
Proof.
  unfold merge_row, mobility_features_df; cbn [rows columns].
  destruct (lookup_features hf (cell_at lrow li)) as [f|] eqn:Hf.
  - destruct (cell_at lrow li) as [k| | |]; try done. simpl in Hf.
    rewrite (filter_feature_rows_hit _ k f);
      [done | apply NoDup_fst_map_to_list | by apply elem_of_map_to_list].
  - rewrite filter_feature_rows_miss; [done|].
    intros k Hk. rewrite Hk in Hf. simpl in Hf.
    intros [[k' f] [Heq Hin]]%list_elem_of_fmap. simpl in Heq. subst k'.
    apply elem_of_map_to_list in Hin. congruence.
Qed.

Lemma bind_merge_row hf li (l : list (list value)) :
  (λ row : list value, fill0 <$> row) <$>
    (l ≫= merge_row li 0 (mobility_features_df hf)) =
  joined_row hf li <$> l.
Proof.
  induction l as [|lrow l IH]; [done|].
  rewrite bind_cons, merge_row_features, fmap_app, IH. done.
Qed.

(** *** The key check *)

Lemma key_column_mobility hf :
  key_column (mobility_features_df hf) 0 = Str <$> (map_to_list hf).*1.
Proof.
  unfold key_column, mobility_features_df; cbn [rows].
  rewrite <- !list_fmap_compose. by apply list_fmap_ext.
Qed.

Lemma numeric_keys_Forall (keys : list value) :
  numeric_keys keys = true ↔ Forall (λ v, is_str v = false) keys.
Proof.
  unfold numeric_keys. induction keys as [|v keys IH]; cbn [forallb].
  - split; [constructor | done].
  - rewrite Forall_cons, <- IH, andb_true_iff, negb_true_iff. done.
Qed.

Lemma not_int_Str (ks : list string) :
  forallb (λ v, negb (is_int v)) (Str <$> ks) = true.
Proof. induction ks as [|k ks IH]; csimpl; [done | exact IH]. Qed.

Lemma merge_key_error_strings (lk : list value) (ks : list string) :
  merge_key_error lk (Str <$> ks) =
  match lk, ks with
  | [], _ | _, [] => false
  | _, _ => numeric_keys lk
  end.
Proof.
  destruct lk as [|v lk], ks as [|k ks]; try done.
  rewrite fmap_cons. unfold merge_key_error.
  replace (string_keys (Str k :: (Str <$> ks))) with true
    by (symmetry; apply (not_int_Str (k :: ks))).
  replace (numeric_keys (Str k :: (Str <$> ks))) with false by done.
  by rewrite andb_true_r, andb_false_r, orb_false_r.
Qed.

(** The join raises the [ValueError] exactly when the table has rows, the
    mapping has entries and no [hex_id] cell of the table is a string. *)
Lemma key_clash_spec table li hf :
  key_clash table li hf = true ↔
  rows table ≠ [] ∧ hf ≠ ∅ ∧
  Forall (λ row, is_str (cell_at row li) = false) (rows table).
Proof.
  unfold key_clash. rewrite key_column_mobility, merge_key_error_strings.
  rewrite <- (map_to_list_empty_iff hf).
  assert (numeric_keys (key_column table li) = true ↔
          Forall (λ row, is_str (cell_at row li) = false) (rows table))
    as Hnum by (rewrite numeric_keys_Forall; apply Forall_fmap).
  unfold key_column in *.
  destruct (rows table) as [|row l]; [by split; [|intros [[] _]]|].
  destruct (map_to_list hf) as [|kf kfs];
    [by split; [|intros (_ & [] & _)]|].
  csimpl in *. rewrite Hnum. by split; [|intros (_ & _ & ?)].
Qed.

Lemma key_clash_Str table li hf i row k :
  rows table !! i = Some row → cell_at row li = Str k →
  key_clash table li hf = false.
Proof.
  intros Hrow Hkey. destruct (key_clash table li hf) eqn:Hclash; [|done].
  apply key_clash_spec in Hclash as (_ & _ & Hall).
  rewrite Forall_lookup in Hall. specialize (Hall i row Hrow).
  by rewrite Hkey in Hall.
Qed.

(** Filling the missing cells of a table neither gives nor takes a string
    key. *)
Lemma is_str_fill0 v : is_str (fill0 v) = is_str v.
Proof. unfold fill0. destruct v; try done. by destruct (isna _). Qed.

Lemma key_clash_fillna table li hf :
  key_clash (fillna table) li hf = key_clash table li hf.
Proof.
  apply eq_true_iff_eq. rewrite !key_clash_spec.
  unfold fillna; cbn [rows]. rewrite Forall_fmap.
  assert (∀ row : list value,
            is_str (cell_at (fill0 <$> row) li) = is_str (cell_at row li))
    as Hcell.
  { intros row. unfold cell_at. rewrite list_lookup_fmap.
    destruct (row !! li) as [v|]; [apply is_str_fill0 | done]. }
  split; intros (Hrows & Hhf & Hall); (split; [|split; [done|]]).
  - intros Heq. apply Hrows. by rewrite Heq.
  - eapply Forall_impl; [exact Hall|]. intros row. simpl. by rewrite Hcell.
  - intros Heq%fmap_nil_inv. done.
  - eapply Forall_impl; [exact Hall|]. intros row. simpl. by rewrite Hcell.
Qed.

(** *** The join as a whole *)

(** The join needs a [hex_id] column whose cells can be merged with the
    keys of the mapping, and then maps every input row to one joined
    row. *)
Lemma join_features_rows table hf :
  join_features table hf =
    li ← col_index "hex_id" (columns table);
    if key_clash table li hf then None
    else Some {| columns := merged_columns "hex_id" (columns table)
                              (columns (mobility_features_df hf));
                 rows := joined_row hf li <$> rows table |}.
Proof.
  unfold join_features, merge_left, key_clash.
  destruct (col_index "hex_id" (columns table)) as [li|]; [|done].
  change (col_index "hex_id" (columns (mobility_features_df hf)))
    with (Some 0%nat).
  cbn [mbind option_bind].
  destruct (merge_key_error _ _); [done|].
  cbn [fmap option_fmap option_map].
  unfold fillna; cbn [rows columns]. by rewrite bind_merge_row.
Qed.

Lemma join_features_inv table hf joined :
  join_features table hf = Some joined →
  ∃ li, col_index "hex_id" (columns table) = Some li ∧
        key_clash table li hf = false ∧
        joined = {| columns := merged_columns "hex_id" (columns table)
                                 (columns (mobility_features_df hf));
                    rows := joined_row hf li <$> rows table |}.
Proof.
  rewrite join_features_rows.
  destruct (col_index "hex_id" (columns table)) as [li|]; [|done].
  cbn [mbind option_bind].
  destruct (key_clash table li hf) eqn:Hclash; [done|].
  intros [= <-]. by exists li.
Qed.

Lemma isna_fill0 v : isna (fill0 v) = false.
Proof. unfold fill0. by destruct (isna v) eqn:Hv. Qed.

Lemma fill0_id v : isna v = false → fill0 v = v.
Proof. unfold fill0. by intros ->. Qed.

Lemma fill0_idemp v : fill0 (fill0 v) = fill0 v.
Proof. apply fill0_id, isna_fill0. Qed.

Lemma fmap_fill0_id (row : list value) :
  (∀ v, v ∈ row → isna v = false) → fill0 <$> row = row.
Proof.
  induction row as [|v row IH]; intros Hrow; csimpl; [done|].
  rewrite fill0_id by (apply Hrow; left).
  f_equal. apply IH. intros w Hw. apply Hrow. by right.
Qed.

Lemma joined_row_absent hf li row :
  lookup_features hf (cell_at row li) = None →
  joined_row hf li row = (fill0 <$> row) ++ [Int 0; Int 0; Int 0].
Proof. unfold joined_row. intros ->. by rewrite fmap_app. Qed.

(** *** Properties of the Feature Joiner *)

(** C4: the table the join returns has exactly one row per input row, and
    row [i] of the output is the join of row [i] of the input: nothing is
    dropped, duplicated or moved. *)
Theorem join_features_row_count (table joined : DataFrame)
    (hex_features : gmap string Features) :
  join_features table hex_features = Some joined →
  length (rows joined) = length (rows table) ∧
  ∃ li,
    col_index "hex_id" (columns table) = Some li ∧
    ∀ i, rows joined !! i = joined_row hex_features li <$> rows table !! i.
Proof.
  intros (li & Hli & _ & ->)%join_features_inv. cbn [rows]. split.
  - by rewrite length_fmap.
  - exists li. split; [done|]. intros i. by rewrite list_lookup_fmap.
Qed.

(** C2, as amended: in the table the join returns, a row whose cell
    identifier is absent from the aggregated mapping is joined to three
    feature cells that are exactly 0; its own cells are kept, except that
    a missing one becomes 0 as well, so a row without missing cells is
    unchanged. *)
Theorem join_features_absent_cell (table joined : DataFrame)
    (hex_features : gmap string Features) (li i : nat) (row : list value) :
  join_features table hex_features = Some joined →
  col_index "hex_id" (columns table) = Some li →
  rows table !! i = Some row →
  lookup_features hex_features (cell_at row li) = None →
  rows joined !! i = Some ((fill0 <$> row) ++ [Int 0; Int 0; Int 0]) ∧
  ((∀ v, v ∈ row → isna v = false) →
   rows joined !! i = Some (row ++ [Int 0; Int 0; Int 0])).
Proof.
  intros (li' & Hli' & _ & ->)%join_features_inv Hli Hrow Habs.
  assert (li' = li) as -> by congruence. cbn [rows].
  rewrite list_lookup_fmap, Hrow; simpl.
  rewrite (joined_row_absent _ _ _ Habs). split; [done|].
  intros Hfull. by rewrite fmap_fill0_id.
Qed.

(** *** Further properties of the join *)

(** X10: the join raises on a table that has no [hex_id] column (a
    [KeyError]), and on a table with rows none of whose [hex_id] cells is
    a string, as soon as the mapping has an entry (a [ValueError]: a
    numeric key column cannot be merged with the string keys of the
    mapping). *)
Theorem join_features_key_error (table : DataFrame)
    (hex_features : gmap string Features) :
  ("hex_id" ∉ columns table → join_features table hex_features = None) ∧
  (∀ li,
     col_index "hex_id" (columns table) = Some li →
     rows table ≠ [] → hex_features ≠ ∅ →
     Forall (λ row, is_str (cell_at row li) = false) (rows table) →
     join_features table hex_features = None).
Proof.
  rewrite join_features_rows. split.
  - intros Hnone%col_index_None. by rewrite Hnone.
  - intros li Hli Hrows Hhf Hall. rewrite Hli. cbn [mbind option_bind].
    by rewrite (proj2 (key_clash_spec table li hex_features)).
Qed.

(** X11: a row whose cell identifier has an entry in the mapping is
    joined to exactly that entry's [device_count], [visit_count] and
    [avg_time] (a not-a-number [avg_time] becoming 0), after its own
    cells. *)
Theorem join_features_present_cell (table : DataFrame)
    (hex_features : gmap string Features) (li i : nat) (row : list value)
    (k : string) (f : Features) :
  col_index "hex_id" (columns table) = Some li →
  rows table !! i = Some row →
  cell_at row li = Str k →
  hex_features !! k = Some f →
  ∃ joined,
    join_features table hex_features = Some joined ∧
    rows joined !! i =
      Some ((fill0 <$> row) ++
            [Int (device_count f); Int (visit_count f);
             fill0 (Flt (avg_time f))]).
Proof.
  intros Hli Hrow Hkey Hf. rewrite join_features_rows, Hli.
  cbn [mbind option_bind].
  rewrite (key_clash_Str _ _ _ _ _ _ Hrow Hkey).
  eexists. split; [done|]. cbn [rows].
  rewrite list_lookup_fmap, Hrow; simpl. f_equal.
  unfold joined_row. rewrite Hkey. simpl. rewrite Hf.
  by rewrite fmap_app.
Qed.

(** X12: the join keeps the table rectangular and appends exactly three
    columns: every joined row is three cells wider than its input row. *)
Theorem join_features_shape (table joined : DataFrame)
    (hex_features : gmap string Features) :
  wf_rows table →
  join_features table hex_features = Some joined →
  wf_rows joined ∧
  length (columns joined) = (length (columns table) + 3)%nat.
Proof.
  intros Hwf (li & _ & _ & ->)%join_features_inv.
  unfold wf_rows in *. cbn [columns rows].
  assert (length (merged_columns "hex_id" (columns table)
                    (columns (mobility_features_df hex_features))) =
          (length (columns table) + 3)%nat) as Hcols.
  { unfold merged_columns. by rewrite length_app, !length_fmap. }
  split; [|done]. rewrite Hcols. apply Forall_fmap.
  eapply Forall_impl; [exact Hwf|]. intros row Hrow. simpl.
  unfold joined_row. rewrite length_fmap, length_app, Hrow.
  by destruct (lookup_features hex_features (cell_at row li)).
Qed.

(** *** Coverage diagnostics *)

Lemma unique_values_subset (l : list value) w :
  w ∈ unique_values l → w ∈ l.
Proof.
  revert w. induction l as [|v l IH]; intros w; simpl; [done|].
  intros [->|Hin]%elem_of_cons; [left|].
  apply list_elem_of_filter in Hin as [_ Hin]. right. by apply IH.
Qed.

Lemma unique_values_Str (l : list value) k :
  Str k ∈ l → Str k ∈ unique_values l.
Proof.
  induction l as [|v l IH]; simpl; [done|].
  intros [<-|Hin]%elem_of_cons; [left|].
  destruct v as [s| | |];
    try (right; apply list_elem_of_filter; split; [by intros []|by apply IH]).
  destruct (decide (s = k)) as [->|Hne]; [left|].
  right. apply list_elem_of_filter. split; [|by apply IH].
  simpl. intros Heq%bool_decide_unpack. congruence.
Qed.

Lemma length_unique_values (l : list value) :
  (length (unique_values l) ≤ length l)%nat.
Proof.
  induction l as [|v l IH]; simpl; [done|].
  pose proof (length_filter (λ w, ¬ same_key w v) (unique_values l)). lia.
Qed.

Lemma mobility_hex_ids hf :
  getitem "hex_id" (mobility_features_df hf) =
  Some (Str <$> (map_to_list hf).*1).
Proof.
  unfold getitem, mobility_features_df; cbn [columns rows].
  change (col_index "hex_id" _) with (Some 0%nat).
  cbn [mbind option_bind]. f_equal.
  rewrite <- !list_fmap_compose. by apply list_fmap_ext.
Qed.

Lemma existsb_mobility_ids hf v :
  existsb (same_key v) (unique_values (Str <$> (map_to_list hf).*1)) ↔
  is_Some (lookup_features hf v).
Proof.
  rewrite Is_true_true, existsb_exists. split.
  - intros (w & Hw%list_elem_of_In%unique_values_subset & Hsame).
    apply list_elem_of_fmap in Hw as (k & -> & Hk).
    destruct v as [s| | |]; simpl in Hsame; try done.
    apply bool_decide_eq_true in Hsame as ->. simpl.
    apply list_elem_of_fmap in Hk as ([k' f] & -> & Hin).
    apply elem_of_map_to_list in Hin. by eexists.
  - destruct v as [k| | |]; simpl; try by intros [? [=]].
    intros [f Hf]. exists (Str k). split.
    + apply list_elem_of_In, unique_values_Str, list_elem_of_fmap_2.
      apply list_elem_of_fmap. exists (k, f).
      split; [done | by apply elem_of_map_to_list].
    + simpl. by apply bool_decide_eq_true.
Qed.

(** X13: the identifiers the diagnostic reports as missing all occur in
    the table's [hex_id] column and have no entry in the mapping, and
    every string identifier of the column without an entry is reported;
    the printed count is at most the number of rows. *)
Theorem missing_hex_sound (table : DataFrame)
    (hex_features : gmap string Features) (missing : list value) :
  missing_hex table hex_features = Some missing →
  ∃ ids,
    getitem "hex_id" table = Some ids ∧
    (∀ v, v ∈ missing → v ∈ ids ∧ lookup_features hex_features v = None) ∧
    (∀ k, Str k ∈ ids → hex_features !! k = None → Str k ∈ missing) ∧
    (length missing ≤ length (rows table))%nat.
Proof.
  unfold missing_hex. rewrite mobility_hex_ids.
  destruct (getitem "hex_id" table) as [ids|] eqn:Hids; [|done].
  cbn [mbind option_bind]. intros [= <-]. exists ids. split; [done|].
  unfold set_difference. split; [|split].
  - intros v [Hnot Hin]%list_elem_of_filter.
    split; [by apply unique_values_subset|].
    rewrite existsb_mobility_ids in Hnot.
    destruct (lookup_features hex_features v); [|done].
    destruct Hnot. by eexists.
  - intros k Hin Hnone. apply list_elem_of_filter.
    split; [|by apply unique_values_Str].
    rewrite existsb_mobility_ids. simpl. rewrite Hnone. by intros [? ?].
  - etransitivity; [apply length_filter|].
    etransitivity; [apply length_unique_values|].
    unfold getitem in Hids.
    destruct (col_index "hex_id" (columns table)); [|done].
    injection Hids as <-. by rewrite length_fmap.
Qed.

(** *** The feature table *)

#[local] Instance Str_inj : Inj (=) (=) Str.
Proof. by intros ?? [= ->]. Qed.

(** X9: the feature table built from the dictionary has one row per cell of
    the dictionary and no cell twice: its [hex_id] column holds the keys,
    all distinct, and the row of a key holds that key's three features.
    This is what makes the left join one-to-one. *)
Theorem mobility_features_df_rows (hex_features : gmap string Features) :
  wf_rows (mobility_features_df hex_features) ∧
  length (rows (mobility_features_df hex_features)) = size hex_features ∧
  (∃ ids, getitem "hex_id" (mobility_features_df hex_features) = Some ids ∧
          NoDup ids ∧
          ∀ k, Str k ∈ ids ↔ is_Some (hex_features !! k)) ∧
  ∀ k f, Str k :: feature_cells f ∈ rows (mobility_features_df hex_features)
         ↔ hex_features !! k = Some f.
Proof.
  split; [|split; [|split]].
  - unfold wf_rows, mobility_features_df; cbn [columns rows].
    apply Forall_fmap, Forall_forall. by intros [k f] _.
  - unfold mobility_features_df; cbn [rows].
    by rewrite length_fmap, length_map_to_list.
  - eexists. split; [apply mobility_hex_ids|]. split.
    + apply NoDup_fmap_2; [apply _|]. apply NoDup_fst_map_to_list.
    + intros k. rewrite list_elem_of_fmap. split.
      * intros (k' & [= <-] & Hin).
        apply list_elem_of_fmap in Hin as ([k' f] & -> & Hin).
        apply elem_of_map_to_list in Hin. by eexists.
      * intros [f Hf]. exists k. split; [done|].
        apply list_elem_of_fmap. exists (k, f).
        split; [done | by apply elem_of_map_to_list].
  - intros k f. unfold mobility_features_df; cbn [rows].
    rewrite list_elem_of_fmap. split.
    + intros ([k' f'] & Heq & Hin). unfold feature_row, feature_cells in Heq.
      simpl in Heq. injection Heq as <- Hd Hv Ht.
      apply elem_of_map_to_list in Hin.
      destruct f, f'. simpl in *. congruence.
    + intros Hf. exists (k, f). split; [done|].
      by apply elem_of_map_to_list.
Qed.

(** *** Resolution of the labeled data *)

(** The resolution is read from the first labeled row alone: the
    sample identifier is the [hex_id] cell of the first row, and there
    is none exactly when the table has no [hex_id] column or no row. *)
Theorem example_hex_first_row (train : DataFrame) :
  (example_hex train = None ↔
   "hex_id" ∉ columns train ∨ rows train = []) ∧
  (∀ li row rest,
     col_index "hex_id" (columns train) = Some li →
     rows train = row :: rest →
     example_hex train = Some (cell_at row li)).
Proof.
  unfold example_hex, getitem. split.
  - rewrite <- col_index_None.
    destruct (col_index "hex_id" (columns train)) as [li|];
      cbn [mbind option_bind].
    + destruct (rows train); simpl; split; try done.
      * by right.
      * by intros [?|?].
    + split; [by left | done].
  - intros li row rest -> ->. done.
Qed.

(** ** Predictor: column alignment *)

(** *** Dropping columns *)

(** A column that survives the drop keeps its cells. *)
Lemma cell_select cs cols row c :
  c ∉ cs →
  match col_index c (filter (λ c', c' ∉ cs) cols) with
  | Some i' => ∃ i, col_index c cols = Some i ∧
                    cell_at (select (keep_mask cs cols) row) i' = cell_at row i
  | None => col_index c cols = None
  end.
Proof.
  intros Hc. revert row.
  induction cols as [|c' cols IH]; intros row; [done|].
  destruct (decide (c = c')) as [<-|Hne].
  - rewrite filter_cons_True by done. simpl.
    rewrite !decide_True by done. exists 0%nat. split; [done|].
    destruct row as [|v row]; [done|].
    by rewrite bool_decide_true by done.
  - cbn [col_index]. rewrite (decide_False (P := c = c')) by done.
    destruct (decide (c' ∉ cs)) as [Hk|Hk].
    + rewrite filter_cons_True by done. cbn [col_index].
      rewrite (decide_False (P := c = c')) by done.
      destruct row as [|v row].
      * specialize (IH []).
        destruct (col_index c (filter _ cols)) as [i'|]; simpl.
        -- destruct IH as (i & -> & _). exists (S i). split; [done|].
           by destruct i'.
        -- by rewrite IH.
      * specialize (IH row). simpl. rewrite bool_decide_true by done.
        destruct (col_index c (filter _ cols)) as [i'|]; simpl.
        -- destruct IH as (i & -> & Hcell). by exists (S i).
        -- by rewrite IH.
    + rewrite filter_cons_False by done.
      destruct row as [|v row].
      * specialize (IH []).
        destruct (col_index c (filter _ cols)) as [i'|]; simpl.
        -- destruct IH as (i & -> & _). exists (S i). split; [done|].
           unfold cell_at. by destruct (keep_mask cs cols), i'.
        -- by rewrite IH.
      * specialize (IH row). simpl. rewrite bool_decide_false by done.
        destruct (col_index c (filter _ cols)) as [i'|]; simpl.
        -- destruct IH as (i & -> & Hcell). by exists (S i).
        -- by rewrite IH.
Qed.

(** *** Column alignment *)

Lemma reindex_row_aligned cols fill row :
  NoDup cols → length row = length cols →
  reindex_row cols fill cols row = row.
Proof.
  intros Hnd Hlen. apply list_eq; intros j. unfold reindex_row.
  rewrite list_lookup_fmap.
  destruct (cols !! j) as [c|] eqn:Hj; simpl.
  - rewrite (col_index_NoDup _ _ _ Hnd Hj). unfold cell_at.
    destruct (lookup_lt_is_Some_2 row j) as [v Hv].
    + rewrite Hlen. by eapply lookup_lt_Some.
    + by rewrite Hv.
  - symmetry. apply lookup_ge_None. rewrite Hlen. by apply lookup_ge_None.
Qed.

Lemma fmap_id_on {A} (f : A → A) (l : list A) :
  Forall (λ x, f x = x) l → f <$> l = l.
Proof. induction 1; csimpl; congruence. Qed.

Lemma align_shape cols tm :
  columns (align cols tm) = cols ∧
  length (rows (align cols tm)) = length (rows tm).
Proof.
  unfold align, reindex, drop_ignore; cbn [columns rows].
  by rewrite !length_fmap.
Qed.

(** C6: the aligned feature table has exactly the training columns, in
    the training order, and one row per row of the joined prediction
    table; in every row the cell of a training column is the cell the
    prediction table has in that column, and 0 when the prediction table
    has no such column.  No column outside the training columns is left
    in the table, so the model is never shown a column it was not
    trained on and the alignment has no failing case. *)
Theorem align_columns (X_train_columns : list string)
    (test_merged : DataFrame) :
  columns (align X_train_columns test_merged) = X_train_columns ∧
  length (rows (align X_train_columns test_merged)) =
    length (rows test_merged) ∧
  (∀ c, c ∈ columns (align X_train_columns test_merged) →
        c ∈ X_train_columns) ∧
  ∀ r row, rows test_merged !! r = Some row →
    ∃ xrow, rows (align X_train_columns test_merged) !! r = Some xrow ∧
      length xrow = length X_train_columns ∧
      ∀ j c, X_train_columns !! j = Some c →
        xrow !! j =
          Some (match (if decide (c = "hex_id") then None
                       else col_index c (columns test_merged)) with
                | Some i => cell_at row i
                | None => Int 0
                end).
Proof.
  unfold align, reindex, drop_ignore; cbn [columns rows].
  split; [done|]. split; [by rewrite !length_fmap|]. split; [done|].
  intros r row Hrow. rewrite !list_lookup_fmap, Hrow; simpl.
  eexists. split; [done|]. unfold reindex_row.
  split; [by rewrite length_fmap|].
  intros j c Hj. rewrite list_lookup_fmap, Hj; simpl. f_equal.
  destruct (decide (c = "hex_id")) as [->|Hne].
  - destruct (col_index "hex_id" _) as [i|] eqn:Hi; [|done].
    apply col_index_Some, list_elem_of_lookup_2 in Hi.
    apply list_elem_of_filter in Hi as [Hi _]. destruct Hi. left.
  - assert (c ∉ ["hex_id"]) as Hc.
    { intros Hin. apply list_elem_of_singleton in Hin. done. }
    pose proof (cell_select ["hex_id"] (columns test_merged) row c Hc) as Hs.
    destruct (col_index c (filter _ (columns test_merged))) as [i'|].
    + destruct Hs as (i & -> & ->). done.
    + by rewrite Hs.
Qed.

(** C8: a feature table that already has the training columns, in the
    training order, is returned unchanged by the alignment
    [reindex(columns=X_train.columns, fill_value=0)]; in particular
    aligning twice is aligning once. *)
Theorem reindex_aligned_noop (X_train_columns : list string)
    (test_X : DataFrame) :
  NoDup X_train_columns →
  wf_rows test_X →
  columns test_X = X_train_columns →
  reindex X_train_columns (Int 0) test_X = test_X.
Proof.
  intros Hnd Hwf Hcols. destruct test_X as [cols rws].
  unfold wf_rows in Hwf. simpl in *. subst cols.
  unfold reindex; cbn [columns rows]. f_equal.
  apply fmap_id_on. eapply Forall_impl; [exact Hwf|].
  intros row Hlen. by apply reindex_row_aligned.
Qed.

(** *** Writing the predictions back *)

Lemma keep_mask_lookup c cols i :
  cols !! i = Some c → keep_mask [c] cols !! i = Some false.
Proof.
  intros Hi. unfold keep_mask. rewrite list_lookup_fmap, Hi; simpl.
  f_equal. apply bool_decide_false. intros Hn. apply Hn. left.
Qed.

Lemma select_insert mask row i v :
  mask !! i = Some false → select mask (<[i := v]> row) = select mask row.
Proof.
  revert row i. induction mask as [|b mask IH]; intros [|w row] i; try done.
  destruct i as [|i]; simpl.
  - by intros [= ->].
  - intros Hi. by rewrite (IH row i Hi).
Qed.

Lemma select_snoc mask row v :
  length row = length mask →
  select (mask ++ [false]) (row ++ [v]) = select mask row.
Proof.
  revert row. induction mask as [|b mask IH]; intros [|w row]; try done.
  simpl. intros [= Hlen]. by rewrite (IH row Hlen).
Qed.

Lemma fmap_zip_with_same {A B C} (g' g : A → C) (f : A → B → A)
    (l : list A) (k : list B) :
  length k = length l →
  Forall (λ x, ∀ y, g' (f x y) = g x) l →
  g' <$> zip_with f l k = g <$> l.
Proof.
  intros Hlen Hall. revert k Hlen.
  induction Hall as [|x l Hx Hall IH]; intros [|y k]; try done.
  cbn [length]. intros [= Hlen]. csimpl. rewrite Hx. f_equal. by apply IH.
Qed.

Lemma setitem_frame c vals df out :
  wf_rows df →
  setitem c vals df = Some out →
  drop_ignore [c] out = drop_ignore [c] df ∧
  length (rows out) = length (rows df) ∧
  getitem c out = Some vals.
Proof.
  intros Hwf. unfold setitem.
  destruct (decide (length vals = length (rows df))) as [Hlen|]; [|done].
  destruct (col_index c (columns df)) as [i|] eqn:Hi; intros [= <-].
  - pose proof (col_index_Some _ _ _ Hi) as Hci.
    unfold drop_ignore, getitem; cbn [columns rows]. rewrite Hi.
    split; [|split].
    + f_equal. apply fmap_zip_with_same; [done|].
      apply Forall_forall. intros row _ v.
      by apply select_insert, keep_mask_lookup.
    + rewrite length_zip_with. lia.
    + cbn [mbind option_bind]. f_equal.
      unfold wf_rows in Hwf. clear Hi. revert vals Hlen.
      induction Hwf as [|row rws Hrow Hwf IH]; intros [|v vals]; try done.
      cbn [length]. intros [= Hlen]. csimpl. rewrite (IH vals Hlen). f_equal.
      unfold cell_at. rewrite list_lookup_insert_eq; [done|].
      rewrite Hrow. by eapply lookup_lt_Some.
  - apply col_index_None in Hi.
    unfold drop_ignore, getitem; cbn [columns rows].
    split; [|split].
    + f_equal.
      * rewrite filter_app, filter_cons_False, filter_nil, app_nil_r;
          [done|]. intros Hn. apply Hn. left.
      * unfold keep_mask. rewrite fmap_app. csimpl.
        rewrite bool_decide_false by (intros Hn; apply Hn; left).
        apply fmap_zip_with_same; [done|].
        eapply Forall_impl; [exact Hwf|]. intros row Hrow v.
        apply select_snoc. by rewrite length_fmap.
    + rewrite length_zip_with. lia.
    + assert (col_index c (columns df ++ [c]) =
              Some (length (columns df))) as ->.
      { clear Hwf. induction (columns df) as [|c' cols IH]; simpl.
        - by rewrite decide_True.
        - apply not_elem_of_cons in Hi as [Hne Hi].
          rewrite decide_False by done. by rewrite (IH Hi). }
      cbn [mbind option_bind]. f_equal.
      unfold wf_rows in Hwf. revert vals Hlen.
      induction Hwf as [|row rws Hrow Hwf IH]; intros [|v vals]; try done.
      cbn [length]. intros [= Hlen]. csimpl. rewrite (IH vals Hlen). f_equal.
      unfold cell_at. rewrite <- Hrow.
      by rewrite lookup_app_r, Nat.sub_diag by lia.
Qed.

(** *** Properties of the Predictor *)

(** C5: whenever the Predictor returns, its output is the unlabeled
    input with only the target column written: with [cost_of_living]
    removed on both sides the two tables are equal (same columns, same
    rows, same order), the row count is kept and the target column holds
    the predictions.  It does return whenever the join returns and the
    model predicts one value per row. *)
Theorem predictor_preserves_input `{est : Estimator} (m : model)
    (X_train_columns : list string) (hex_features : gmap string Features)
    (test : DataFrame) :
  wf_rows test →
  (∀ out, Predictor m X_train_columns hex_features test = Some out →
     drop_ignore ["cost_of_living"] out =
       drop_ignore ["cost_of_living"] test ∧
     length (rows out) = length (rows test) ∧
     ∃ y_pred, getitem "cost_of_living" out = Some (Flt <$> y_pred)) ∧
  (is_Some (join_features test hex_features) →
   (∀ X, columns X = X_train_columns →
         ∃ y_pred, predict m X = Some y_pred ∧
                   length y_pred = length (rows X)) →
   ∃ out, Predictor m X_train_columns hex_features test = Some out).
Proof.
  intros Hwf. split.
  - intros out. unfold Predictor.
    destruct (join_features test hex_features) as [tm|]; [|done].
    cbn [mbind option_bind].
    destruct (predict m (align X_train_columns tm)) as [y_pred|]; [|done].
    cbn [mbind option_bind]. intros Hset.
    destruct (setitem_frame _ _ _ _ Hwf Hset) as (Hdrop & Hlen & Hget).
    eauto.
  - intros [tm Htm] Hpred. unfold Predictor. rewrite Htm.
    apply join_features_inv in Htm as (li & _ & _ & Htm).
    assert (rows tm = joined_row hex_features li <$> rows test) as Hrows
      by (by rewrite Htm).
    clear Htm. cbn [mbind option_bind].
    destruct (align_shape X_train_columns tm) as [Hcols Hlen].
    destruct (Hpred (align X_train_columns tm) Hcols) as (y_pred & -> & Hp).
    cbn [mbind option_bind]. unfold setitem.
    rewrite decide_True.
    + destruct (col_index "cost_of_living" (columns test)); by eexists.
    + by rewrite length_fmap, Hp, Hlen, Hrows, length_fmap.
Qed.

(** *** What the estimator is shown *)

Lemma fmap_ext_Forall {A B} (f g : A → B) (l : list A) :
  Forall (λ x, f x = g x) l → f <$> l = g <$> l.
Proof. induction 1; csimpl; congruence. Qed.

(** X14: on a labeled table with the columns [hex_id], [cost_of_living]
    whose [hex_id] column does not clash with the keys of the mapping,
    the join returns and the Trainer's feature table has the three mobility columns only, its
    row for a labeled row is the feature vector of that row's cell (zeros
    for a cell without mobility data), and the target vector is the
    [cost_of_living] column with a missing value read as 0: neither the
    identifier nor the target is among the features. *)
Theorem trainer_inputs (train : DataFrame)
    (hex_features : gmap string Features) :
  columns train = ["hex_id"; "cost_of_living"] →
  wf_rows train →
  key_clash train 0 hex_features = false →
  ∃ train_merged X y,
    join_features train hex_features = Some train_merged ∧
    drop_columns ["cost_of_living"; "hex_id"] train_merged = Some X ∧
    getitem "cost_of_living" train_merged = Some y ∧
    columns X = ["device_count"; "visit_count"; "avg_time"] ∧
    rows X = (λ row, feature_vector hex_features (cell_at row 0))
               <$> rows train ∧
    y = (λ row, fill0 (cell_at row 1)) <$> rows train.
Proof.
  destruct train as [cols rws]. unfold wf_rows. cbn [columns rows].
  intros -> Hwf Hclash. rewrite join_features_rows. cbn [columns rows].
  change (col_index "hex_id" ["hex_id"; "cost_of_living"])
    with (Some 0%nat).
  cbn [mbind option_bind]. rewrite Hclash.
  eexists _, _, _. split; [done|].
  unfold drop_columns, getitem. cbn [columns rows].
  rewrite decide_True by (repeat constructor).
  split; [done|]. split; [vm_compute col_index; done|].
  split; [by vm_compute|]. split.
  - unfold drop_ignore; cbn [rows columns].
    rewrite <- list_fmap_compose. apply fmap_ext_Forall.
    eapply Forall_impl; [exact Hwf|].
    intros [|k [|t [|? ?]]]; try done. intros _. simpl.
    unfold joined_row, feature_vector, cell_at. simpl.
    by destruct (lookup_features hex_features k).
  - rewrite <- list_fmap_compose. apply fmap_ext_Forall.
    eapply Forall_impl; [exact Hwf|].
    intros [|k [|t [|? ?]]]; try done.
Qed.

(** X17: on an unlabeled table with the columns [hex_id],
    [cost_of_living] whose [hex_id] column does not clash with the keys
    of the mapping, the join returns and the table handed to the model, aligned to the three
    mobility columns, holds for every row the feature vector of that
    row's cell, the same vector the Trainer sees for that cell, and zeros
    for a cell without mobility data; what the target column holds does
    not reach the model. *)
Theorem predictor_inputs (test : DataFrame)
    (hex_features : gmap string Features) :
  columns test = ["hex_id"; "cost_of_living"] →
  wf_rows test →
  key_clash test 0 hex_features = false →
  ∃ test_merged,
    join_features test hex_features = Some test_merged ∧
    align ["device_count"; "visit_count"; "avg_time"] test_merged =
      {| columns := ["device_count"; "visit_count"; "avg_time"];
         rows := (λ row, feature_vector hex_features (cell_at row 0))
                   <$> rows test |}.
Proof.
  destruct test as [cols rws]. unfold wf_rows. cbn [columns rows].
  intros -> Hwf Hclash. rewrite join_features_rows. cbn [columns rows].
  change (col_index "hex_id" ["hex_id"; "cost_of_living"])
    with (Some 0%nat).
  cbn [mbind option_bind]. rewrite Hclash. eexists. split; [done|].
  unfold align, reindex, drop_ignore. cbn [columns rows]. f_equal.
  rewrite <- !list_fmap_compose. apply fmap_ext_Forall.
  eapply Forall_impl; [exact Hwf|].
  intros [|k [|t [|? ?]]]; try done. intros _. simpl.
  unfold joined_row, feature_vector, cell_at. simpl.
  by destruct (lookup_features hex_features k) as [f|].
Qed.

(** *** Failing before the estimator is called *)

Lemma target_not_in_merged_columns lcols :
  "cost_of_living" ∉ lcols →
  "cost_of_living" ∉
    merged_columns "hex_id" lcols
      ["hex_id"; "device_count"; "visit_count"; "avg_time"].
Proof.
  intros Hnin. unfold merged_columns. rewrite not_elem_of_app. split.
  - intros (c & Hc & Hin)%list_elem_of_fmap.
    case_bool_decide as Hdec; [|by subst].
    destruct Hdec as [_ Hr].
    repeat (apply elem_of_cons in Hr as [->|Hr]; [done|]).
    by apply not_elem_of_nil in Hr.
  - intros (c & Hc & Hin)%list_elem_of_fmap.
    apply list_elem_of_filter in Hin as [_ Hr].
    repeat (apply elem_of_cons in Hr as [->|Hr];
            [by case_bool_decide|]).
    by apply not_elem_of_nil in Hr.
Qed.

(** X16: a labeled table without a [cost_of_living] column never reaches
    the estimator: whatever the estimator and the mapping, training ends
    in the [KeyError] of [drop]. *)
Theorem trainer_key_error `{est : Estimator} (train : DataFrame)
    (hex_features : gmap string Features) :
  "cost_of_living" ∉ columns train →
  join_features train hex_features ≫= Trainer = None.
Proof.
  intros Hnin. rewrite join_features_rows.
  destruct (col_index "hex_id" (columns train)) as [li|]; [|done].
  cbn [mbind option_bind].
  destruct (key_clash train li hex_features); [done|].
  cbn [mbind option_bind]. unfold Trainer, drop_columns.
  cbn [columns mobility_features_df].
  rewrite decide_False; [done|].
  intros [Hin _]%Forall_cons.
  by apply (target_not_in_merged_columns (columns train)).
Qed.

(** *** Predicting twice *)

Lemma joined_row_insert hf li i v (row : list value) :
  li ≠ i → (i < length row)%nat →
  joined_row hf li (<[i := v]> row) =
  <[i := fill0 v]> (joined_row hf li row).
Proof.
  intros Hne Hlt. unfold joined_row, cell_at.
  rewrite list_lookup_insert_ne by done.
  by rewrite <- insert_app_l, list_fmap_insert by done.
Qed.

Lemma cell_at_insert_ne (row : list value) i j v :
  i ≠ j → cell_at (<[i := v]> row) j = cell_at row j.
Proof. intros Hne. unfold cell_at. by rewrite list_lookup_insert_ne. Qed.

Lemma merged_columns_target lcols i :
  lcols !! i = Some "cost_of_living" →
  merged_columns "hex_id" lcols
    ["hex_id"; "device_count"; "visit_count"; "avg_time"] !! i =
  Some "cost_of_living".
Proof.
  intros Hi. unfold merged_columns.
  rewrite lookup_app_l by (rewrite length_fmap; by eapply lookup_lt_Some).
  by rewrite list_lookup_fmap, Hi.
Qed.

Lemma align_row_insert cols mcols i v (jrow : list value) :
  mcols !! i = Some "cost_of_living" →
  "cost_of_living" ∉ cols →
  reindex_row cols (Int 0) (filter (λ c, c ∉ ["hex_id"]) mcols)
    (select (keep_mask ["hex_id"] mcols) (<[i := v]> jrow)) =
  reindex_row cols (Int 0) (filter (λ c, c ∉ ["hex_id"]) mcols)
    (select (keep_mask ["hex_id"] mcols) jrow).
Proof.
  intros Hi Hnin. unfold reindex_row. apply fmap_ext_Forall.
  apply Forall_forall. intros c Hc.
  destruct (decide (c = "hex_id")) as [->|Hne].
  - destruct (col_index "hex_id" _) as [j|] eqn:Hj; [|done].
    apply col_index_Some, list_elem_of_lookup_2 in Hj.
    apply list_elem_of_filter in Hj as [Hj _]. destruct Hj. left.
  - assert (c ∉ ["hex_id"]) as Hc'.
    { by intros ?%list_elem_of_singleton. }
    pose proof (cell_select ["hex_id"] mcols (<[i := v]> jrow) c Hc') as H1.
    pose proof (cell_select ["hex_id"] mcols jrow c Hc') as H2.
    destruct (col_index c (filter _ mcols)) as [j'|]; [|done].
    destruct H1 as (j & Hj & ->). destruct H2 as (j2 & Hj2 & ->).
    assert (j2 = j) as -> by congruence.
    apply cell_at_insert_ne. intros ->.
    apply col_index_Some in Hj. congruence.
Qed.

Lemma key_column_insert cols li i (df : DataFrame) (vals : list value) :
  li ≠ i → length vals = length (rows df) →
  key_column {| columns := cols;
                rows := zip_with (λ row v, <[i := v]> row) (rows df) vals |}
    li =
  key_column df li.
Proof.
  intros Hne Hlen. unfold key_column; cbn [rows].
  apply fmap_zip_with_same; [done|].
  apply Forall_forall. intros row _ v. by apply cell_at_insert_ne.
Qed.

Lemma zip_with_insert_twice i (rws : list (list value)) (vals ps : list value) :
  length vals = length rws →
  zip_with (λ row p, <[i := p]> row)
    (zip_with (λ row v, <[i := v]> row) rws vals) ps =
  zip_with (λ row p, <[i := p]> row) rws ps.
Proof.
  revert vals ps. induction rws as [|row rws IH]; intros [|v vals] [|p ps];
    try done.
  cbn [length]. intros [= Hlen]. simpl.
  by rewrite list_insert_insert_eq, (IH vals ps Hlen).
Qed.

(** X19: writing predictions into the unlabeled table does not change
    what a later prediction run returns: on a table that has the
    [cost_of_living] column, the Predictor run on the table as overwritten
    by an earlier run (the XGBoost run after the random-forest run) gives
    the same output as on the original table, for any model whose training
    columns do not include [cost_of_living]. *)
Theorem predictor_ignores_earlier_predictions `{est : Estimator}
    (m : model) (X_train_columns : list string)
    (hex_features : gmap string Features) (test test' : DataFrame)
    (vals : list value) :
  wf_rows test →
  "cost_of_living" ∈ columns test →
  "cost_of_living" ∉ X_train_columns →
  setitem "cost_of_living" vals test = Some test' →
  Predictor m X_train_columns hex_features test' =
  Predictor m X_train_columns hex_features test.
Proof.
  intros Hwf [i Hi]%col_index_is_Some Hnin. unfold setitem.
  destruct (decide (length vals = length (rows test))) as [Hlen|]; [|done].
  rewrite Hi. intros [= <-].
  pose proof (col_index_Some _ _ _ Hi) as Hci.
  unfold Predictor. rewrite !join_features_rows. cbn [columns rows].
  destruct (col_index "hex_id" (columns test)) as [li|] eqn:Hli; [|done].
  cbn [mbind option_bind].
  assert (li ≠ i) as Hne.
  { intros ->. apply col_index_Some in Hli. congruence. }
  unfold key_clash. rewrite key_column_insert by done.
  destruct (merge_key_error _ _); [done|].
  cbn [mbind option_bind].
  assert (align X_train_columns
            {| columns := merged_columns "hex_id" (columns test)
                            (columns (mobility_features_df hex_features));
               rows := joined_row hex_features li <$>
                         zip_with (λ row v, <[i := v]> row) (rows test) vals |}
          = align X_train_columns
            {| columns := merged_columns "hex_id" (columns test)
                            (columns (mobility_features_df hex_features));
               rows := joined_row hex_features li <$> rows test |}) as ->.
  { unfold align, reindex, drop_ignore. cbn [columns rows]. f_equal.
    rewrite <- !list_fmap_compose.
    apply fmap_zip_with_same; [done|].
    eapply Forall_impl; [exact Hwf|]. intros row Hrow v. simpl.
    rewrite joined_row_insert
      by (done || (rewrite Hrow; by eapply lookup_lt_Some)).
    apply align_row_insert; [|done].
    by apply merged_columns_target. }
  destruct (predict m _) as [y_pred|]; [|done].
  cbn [mbind option_bind]. unfold setitem. cbn [columns rows].
  rewrite Hi, length_zip_with, Hlen, Nat.min_id.
  destruct (decide (length (Flt <$> y_pred) = length (rows test)));
    [|done].
  by rewrite zip_with_insert_twice.
Qed.

(** *** Aligning twice *)

(** X18: aligning an aligned table again changes nothing, whatever the joined
    prediction table was, as long as the training columns are distinct. *)
Theorem align_idempotent (X_train_columns : list string)
    (test_merged : DataFrame) :
  NoDup X_train_columns →
  align X_train_columns (align X_train_columns test_merged) =
  align X_train_columns test_merged.
Proof.
  intros Hnd. unfold align at 1. unfold reindex, drop_ignore.
  set (X := align X_train_columns test_merged).
  assert (columns X = X_train_columns) as Hcols by done.
  assert (rows X =
          reindex_row X_train_columns (Int 0)
            (filter (λ c, c ∉ ["hex_id"]) (columns test_merged))
            <$> (select (keep_mask ["hex_id"] (columns test_merged))
                   <$> rows test_merged)) as Hrows by done.
  destruct X as [xcols xrows]. cbn [columns rows] in *. subst xcols.
  f_equal. rewrite Hrows, <- !list_fmap_compose.
  apply list_fmap_ext. intros _ row _. cbn [compose].
  set (old := filter (λ c, c ∉ ["hex_id"]) (columns test_merged)).
  set (srow := select (keep_mask ["hex_id"] (columns test_merged)) row).
  set (xrow := reindex_row X_train_columns (Int 0) old srow).
  apply list_eq. intros j. unfold reindex_row at 1.
  rewrite list_lookup_fmap.
  destruct (X_train_columns !! j) as [c|] eqn:Hj; simpl.
  - assert (xrow !! j = Some (match col_index c old with
                              | Some i => cell_at srow i
                              | None => Int 0
                              end)) as Hx.
    { unfold xrow, reindex_row. by rewrite list_lookup_fmap, Hj. }
    rewrite Hx. f_equal.
    destruct (decide (c = "hex_id")) as [->|Hne].
    + assert (col_index "hex_id" old = None) as ->.
      { apply col_index_None. unfold old.
        intros [Hin _]%list_elem_of_filter. apply Hin. left. }
      destruct (col_index "hex_id"
                  (filter (λ c, c ∉ ["hex_id"]) X_train_columns))
        as [i|] eqn:Hi; [|done].
      apply col_index_Some, list_elem_of_lookup_2 in Hi.
      apply list_elem_of_filter in Hi as [Hi _]. destruct Hi. left.
    + assert (c ∉ ["hex_id"]) as Hc.
      { by intros ?%list_elem_of_singleton. }
      pose proof (cell_select ["hex_id"] X_train_columns xrow c Hc) as Hs.
      destruct (col_index c (filter _ X_train_columns)) as [i'|].
      * destruct Hs as (i & Hi & ->).
        rewrite (col_index_NoDup _ _ _ Hnd Hj) in Hi. injection Hi as <-.
        unfold cell_at. by rewrite Hx.
      * apply col_index_None in Hs. destruct Hs.
        by eapply list_elem_of_lookup_2.
  - symmetry. apply lookup_ge_None.
    unfold xrow, reindex_row. rewrite length_fmap.
    by apply lookup_ge_None.
Qed.

(** *** The pandas part of training *)

Lemma merged_columns_left c lcols :
  c ∈ lcols → c ∉ ["device_count"; "visit_count"; "avg_time"] →
  c ∈ merged_columns "hex_id" lcols
        ["hex_id"; "device_count"; "visit_count"; "avg_time"].
Proof.
  intros Hin Hnf. unfold merged_columns. apply elem_of_app. left.
  apply list_elem_of_fmap. exists c. split; [|done].
  rewrite bool_decide_false; [done|].
  intros [Hne Hr]. apply elem_of_cons in Hr as [?|Hr]; done.
Qed.

(** X15: once the join has returned on a labeled table that has a
    [cost_of_living] column, the rest of the pandas part of training
    cannot fail: the [drop] and the column lookup both return, and the
    estimator is handed one feature row and one target per labeled row,
    with neither [hex_id] nor [cost_of_living] among the feature
    columns. *)
Theorem trainer_inputs_total (train train_merged : DataFrame)
    (hex_features : gmap string Features) :
  "cost_of_living" ∈ columns train →
  join_features train hex_features = Some train_merged →
  ∃ X y,
    drop_columns ["cost_of_living"; "hex_id"] train_merged = Some X ∧
    getitem "cost_of_living" train_merged = Some y ∧
    length (rows X) = length (rows train) ∧
    length y = length (rows train) ∧
    ("hex_id" ∉ columns X) ∧ ("cost_of_living" ∉ columns X).
Proof.
  intros Htgt (li & Hli & _ & ->)%join_features_inv.
  assert ("hex_id" ∈ columns train) as Hhex
    by (by eapply list_elem_of_lookup_2, col_index_Some).
  assert ("hex_id" ∈ merged_columns "hex_id" (columns train)
            ["hex_id"; "device_count"; "visit_count"; "avg_time"]) as Hh.
  { apply merged_columns_left; [done|].
    intros H. repeat (apply elem_of_cons in H as [H|H]; [discriminate|]).
    by apply not_elem_of_nil in H. }
  assert ("cost_of_living" ∈ merged_columns "hex_id" (columns train)
            ["hex_id"; "device_count"; "visit_count"; "avg_time"]) as Ht.
  { apply merged_columns_left; [done|].
    intros H. repeat (apply elem_of_cons in H as [H|H]; [discriminate|]).
    by apply not_elem_of_nil in H. }
  pose proof Ht as [i Hi]%col_index_is_Some.
  eexists _, _.
  unfold drop_columns, getitem. cbn [columns rows mobility_features_df].
  rewrite decide_True by (by repeat constructor). rewrite Hi.
  split; [reflexivity|]. split; [reflexivity|].
  unfold drop_ignore. cbn [columns rows].
  rewrite !length_fmap. split; [done|]. split; [done|].
  split; intros [Hn _]%list_elem_of_filter; apply Hn.
  - right; left.
  - left.
Qed.

(** *** Missing values *)

Lemma lookup_features_fill0 hf (row : list value) li :
  lookup_features hf (cell_at (fill0 <$> row) li) =
  lookup_features hf (cell_at row li).
Proof.
  unfold cell_at. rewrite list_lookup_fmap.
  destruct (row !! li) as [v|]; simpl; [|done].
  unfold fill0. destruct (isna v) eqn:Hv; [|done]. by destruct v.
Qed.

Lemma joined_row_fill0 hf li (row : list value) :
  joined_row hf li (fill0 <$> row) = joined_row hf li row.
Proof.
  unfold joined_row. rewrite lookup_features_fill0, !fmap_app. f_equal.
  rewrite <- list_fmap_compose. apply list_fmap_ext.
  intros ? v _. apply fill0_idemp.
Qed.

(** Filling the table before the join changes nothing: the join fills it
    anyway. *)
Lemma join_features_fillna table hf :
  join_features (fillna table) hf = join_features table hf.
Proof.
  rewrite !join_features_rows.
  change (columns (fillna table)) with (columns table).
  destruct (col_index "hex_id" (columns table)) as [li|]; [|done].
  cbn [mbind option_bind]. rewrite key_clash_fillna.
  destruct (key_clash table li hf); [done|].
  unfold fillna; cbn [columns rows]. do 2 f_equal.
  rewrite <- list_fmap_compose. apply list_fmap_ext.
  intros ? row _. apply joined_row_fill0.
Qed.

Lemma join_features_no_missing table hf joined row v :
  join_features table hf = Some joined →
  row ∈ rows joined → v ∈ row → isna v = false.
Proof.
  intros (li & _ & _ & ->)%join_features_inv. cbn [rows].
  intros (lrow & -> & _)%list_elem_of_fmap.
  unfold joined_row. intros (w & -> & _)%list_elem_of_fmap.
  apply isna_fill0.
Qed.

(** X20: the table the join returns holds no missing value: every empty
    or not-a-number cell of the input, a missing target included, and
    every feature of a cell without mobility data has become 0.  Filling
    the input table before the join gives the same joined table. *)
Theorem join_features_fills_missing (table joined : DataFrame)
    (hex_features : gmap string Features) :
  join_features table hex_features = Some joined →
  (∀ row v, row ∈ rows joined → v ∈ row → isna v = false) ∧
  join_features (fillna table) hex_features = Some joined.
Proof.
  intros Hjoin. split.
  - intros row v. by apply join_features_no_missing with table hex_features.
  - by rewrite join_features_fillna.
Qed.

(** ** The pipeline on the sample data *)

(** The scenario of the specification: five pings in [h1], two in [h2],
    and no entry for [h3]. *)
Example sample_visit_counts :
  map_to_list (visit_count <$> features_sample) = [("h1", 5); ("h2", 2)].
Proof. vm_compute. reflexivity. Qed.

(** Distinct devices are counted per batch and added: device [a] of cell
    [h1] is counted in both batches. *)
Example sample_device_counts :
  map_to_list (device_count <$> sample_aggregate one_batch)
    = [("h1", 3); ("h2", 2)] ∧
  map_to_list (device_count <$> sample_aggregate two_batches)
    = [("h1", 5); ("h2", 2)].
Proof. split; vm_compute; reflexivity. Qed.

Lemma visit_count_batch_independent_witness :
  concat two_batches = concat one_batch ∧
  visit_count <$> sample_aggregate two_batches =
  visit_count <$> sample_aggregate one_batch.
Proof.
  split; [reflexivity|].
  apply (visit_count_batch_independent (ext := sample_externals)
           two_batches one_batch).
  reflexivity.
Defined.

Lemma visit_count_counts_identified_witness :
  let f := {| device_count := 1; visit_count := 1;
              avg_time := 15%float |} in
  aggregate (ext := sample_externals) anonymous_batches !! "h1" = Some f ∧
  visit_count f =
    identified_in (ext := sample_externals) "h1"
      (concat anonymous_batches) ∧
  ((∀ r, r ∈ concat anonymous_batches → is_Some (device_id r)) →
   visit_count f =
     records_in (ext := sample_externals) "h1" (concat anonymous_batches)).
Proof.
  split; [vm_compute; reflexivity|].
  apply (visit_count_counts_identified (ext := sample_externals)
           anonymous_batches "h1").
  vm_compute. reflexivity.
Defined.

(** The scenario of the specification, joined: the labeled row of [h3]
    gets zero features. *)
Example sample_join :
  join_features train_sample features_sample =
  Some {| columns := ["hex_id"; "cost_of_living"; "device_count";
                      "visit_count"; "avg_time"];
          rows := [[Str "h1"; Flt 0.25%float; Int 3; Int 5; Flt 38%float];
                   [Str "h2"; Flt 0.5%float; Int 2; Int 2; Flt 45%float];
                   [Str "h3"; Flt 0.75%float; Int 0; Int 0; Int 0]] |}.
Proof. vm_compute. reflexivity. Qed.



Lemma join_features_row_count_witness :
  ∃ joined,
    join_features train_sample features_sample = Some joined ∧
    length (rows joined) = length (rows train_sample) ∧
    ∃ li,
      col_index "hex_id" (columns train_sample) = Some li ∧
      ∀ i, rows joined !! i =
           joined_row features_sample li <$> rows train_sample !! i.
Proof.
  eexists. split; [vm_compute; reflexivity|].
  apply (join_features_row_count train_sample _ features_sample).
  vm_compute. reflexivity.
Defined.

(** The row of [h3], a cell without mobility data, in the labeled table. *)
Lemma join_features_absent_cell_witness :
  ∃ joined,
    join_features train_sample features_sample = Some joined ∧
    col_index "hex_id" (columns train_sample) = Some 0%nat ∧
    rows train_sample !! 2%nat = Some [Str "h3"; Flt 0.75%float] ∧
    lookup_features features_sample (Str "h3") = None ∧
    rows joined !! 2%nat =
      Some ((fill0 <$> [Str "h3"; Flt 0.75%float]) ++ [Int 0; Int 0; Int 0]) ∧
    ((∀ v, v ∈ [Str "h3"; Flt 0.75%float] → isna v = false) →
     rows joined !! 2%nat =
       Some ([Str "h3"; Flt 0.75%float] ++ [Int 0; Int 0; Int 0])).
Proof.
  eexists. split; [vm_compute; reflexivity|].
  split; [reflexivity|]. split; [reflexivity|].
  split; [vm_compute; reflexivity|].
  apply (join_features_absent_cell train_sample _ features_sample 0 2).
  - vm_compute. reflexivity.
  - reflexivity.
  - reflexivity.
  - vm_compute. reflexivity.
Defined.

(** Counterexample to C2 as stated: in the unlabeled table the row of
    [h3], a cell absent from the mapping, has an empty target; the join
    turns that cell of the input row into 0. *)
Lemma join_overwrites_missing_cell :
  rows test_sample !! 1%nat = Some [Str "h3"; NaN] ∧
  lookup_features features_sample (Str "h3") = None ∧
  (join_features test_sample features_sample
     ≫= λ joined, rows joined !! 1%nat) =
    Some [Str "h3"; Int 0; Int 0; Int 0; Int 0] ∧
  take 2 [Str "h3"; Int 0; Int 0; Int 0; Int 0] ≠ [Str "h3"; NaN].
Proof.
  split; [reflexivity|]. split; [vm_compute; reflexivity|].
  split; [vm_compute; reflexivity|]. simpl. congruence.
Qed.

(** A missing target in the labeled table: the join hands on 0 in its
    place. *)
Example sample_missing_target :
  getitem "cost_of_living" train_missing_target =
    Some [Flt 0.25%float; NaN; Flt 0.75%float] ∧
  (join_features train_missing_target features_sample
     ≫= getitem "cost_of_living") =
    Some [Flt 0.25%float; Int 0; Flt 0.75%float].
Proof. split; vm_compute; reflexivity. Qed.

(** Cell identifiers read as integers: the join raises. *)
Example sample_numeric_keys :
  join_features train_numeric_keys features_sample = None ∧
  join_features train_numeric_keys ∅ =
    Some {| columns := ["hex_id"; "cost_of_living"; "device_count";
                        "visit_count"; "avg_time"];
            rows := [[Int 1; Flt 0.25%float; Int 0; Int 0; Int 0];
                     [Int 2; Flt 0.5%float; Int 0; Int 0; Int 0]] |}.
Proof. split; vm_compute; reflexivity. Qed.

Lemma predictor_preserves_input_witness :
  let cols := ["device_count"; "visit_count"; "avg_time"] in
  wf_rows test_sample ∧
  (∀ out, Predictor (est := mean_regressor) 0.5%float cols features_sample
            test_sample = Some out →
     drop_ignore ["cost_of_living"] out =
       drop_ignore ["cost_of_living"] test_sample ∧
     length (rows out) = length (rows test_sample) ∧
     ∃ y_pred, getitem "cost_of_living" out = Some (Flt <$> y_pred)) ∧
  (is_Some (join_features test_sample features_sample) →
   (∀ X, columns X = cols →
         ∃ y_pred, predict (Estimator := mean_regressor) 0.5%float X
                     = Some y_pred ∧
                   length y_pred = length (rows X)) →
   ∃ out, Predictor (est := mean_regressor) 0.5%float cols features_sample
            test_sample = Some out).
Proof.
  assert (wf_rows test_sample) as Hwf by (repeat constructor).
  split; [exact Hwf|].
  exact (predictor_preserves_input (est := mean_regressor) 0.5%float
           ["device_count"; "visit_count"; "avg_time"] features_sample
           test_sample Hwf).
Defined.

(** The run itself: both rows of the unlabeled table get a prediction,
    the one of [h3] from zero-filled features. *)
Example predictor_sample_run :
  Predictor (est := mean_regressor) 0.5%float
    ["device_count"; "visit_count"; "avg_time"] features_sample test_sample =
  Some {| columns := ["hex_id"; "cost_of_living"];
          rows := [[Str "h2"; Flt 0.5%float]; [Str "h3"; Flt 0.5%float]] |}.
Proof. vm_compute. reflexivity. Qed.

(** Alignment drops the target column of the joined prediction table and
    fills a training column the table lacks. *)
Example align_sample :
  align ["device_count"; "visit_count"; "avg_time"; "extra"]
    <$> join_features test_sample features_sample =
  Some {| columns := ["device_count"; "visit_count"; "avg_time"; "extra"];
          rows := [[Int 2; Int 2; Flt 45%float; Int 0];
                   [Int 0; Int 0; Int 0; Int 0]] |}.
Proof. vm_compute. reflexivity. Qed.

Lemma reindex_aligned_noop_witness :
  let cols := ["device_count"; "visit_count"; "avg_time"] in
  NoDup cols ∧ wf_rows test_X_sample ∧ columns test_X_sample = cols ∧
  reindex cols (Int 0) test_X_sample = test_X_sample.
Proof.
  assert (NoDup ["device_count"; "visit_count"; "avg_time"]) as Hnd
    by (apply (bool_decide_unpack _); vm_compute; exact I).
  assert (wf_rows test_X_sample) as Hwf by (repeat constructor).
  split; [exact Hnd|]. split; [exact Hwf|]. split; [reflexivity|].
  exact (reindex_aligned_noop _ test_X_sample Hnd Hwf eq_refl).
Defined.

(** *** Further runs on the sample data *)

Lemma device_count_sums_batches_witness :
  let f := {| device_count := 5; visit_count := 5;
              avg_time := PrimFloat.add 15%float
                            (PrimFloat.div 160%float 3%float) |} in
  sample_aggregate two_batches !! "h1" = Some f ∧
  device_count f =
    total (distinct_devices (ext := sample_externals) "h1" <$> two_batches) ∧
  distinct_devices (ext := sample_externals) "h1" (concat two_batches)
    ≤ device_count f.
Proof.
  split; [vm_compute; reflexivity|].
  apply (device_count_sums_batches (ext := sample_externals)
           two_batches "h1").
  vm_compute. reflexivity.
Defined.

Lemma avg_time_sums_batch_means_witness :
  let f := {| device_count := 5; visit_count := 5;
              avg_time := PrimFloat.add 15%float
                            (PrimFloat.div 160%float 3%float) |} in
  sample_aggregate two_batches !! "h1" = Some f ∧
  ∃ m ms, batch_means (ext := sample_externals) "h1" two_batches = m :: ms ∧
          avg_time f = foldl PrimFloat.add m ms.
Proof.
  split; [vm_compute; reflexivity|].
  apply (avg_time_sums_batch_means (ext := sample_externals)
           two_batches "h1").
  vm_compute. reflexivity.
Defined.

Lemma visit_count_order_independent_witness :
  (concat two_batches ≡ₚ concat swapped_batches) ∧
  visit_count <$> sample_aggregate two_batches =
  visit_count <$> sample_aggregate swapped_batches.
Proof.
  assert (concat two_batches ≡ₚ concat swapped_batches) as Hperm.
  { unfold two_batches, swapped_batches. cbn [concat].
    rewrite !app_nil_r. apply Permutation_app_comm. }
  split; [exact Hperm|].
  exact (visit_count_order_independent (ext := sample_externals)
           two_batches swapped_batches Hperm).
Defined.

Lemma device_count_batch_order_independent_witness :
  (two_batches ≡ₚ swapped_batches) ∧
  device_count <$> sample_aggregate two_batches =
  device_count <$> sample_aggregate swapped_batches.
Proof.
  assert (two_batches ≡ₚ swapped_batches) as Hperm by apply perm_swap.
  split; [exact Hperm|].
  exact (device_count_batch_order_independent (ext := sample_externals)
           two_batches swapped_batches Hperm).
Defined.

Lemma aggregate_never_decrements_witness :
  let f := {| device_count := 2; visit_count := 2; avg_time := 15%float |} in
  sample_aggregate (take 1 two_batches) !! "h1" = Some f ∧
  ∃ f', sample_aggregate two_batches !! "h1" = Some f' ∧
        device_count f ≤ device_count f' ∧
        visit_count f ≤ visit_count f'.
Proof.
  split; [vm_compute; reflexivity|].
  apply (aggregate_never_decrements (ext := sample_externals)
           two_batches 1 "h1").
  vm_compute. reflexivity.
Defined.

Lemma join_features_present_cell_witness :
  let f := {| device_count := 3; visit_count := 5; avg_time := 38%float |} in
  col_index "hex_id" (columns train_sample) = Some 0%nat ∧
  rows train_sample !! 0%nat = Some [Str "h1"; Flt 0.25%float] ∧
  features_sample !! "h1" = Some f ∧
  ∃ joined,
    join_features train_sample features_sample = Some joined ∧
    rows joined !! 0%nat =
      Some ((fill0 <$> [Str "h1"; Flt 0.25%float]) ++
            [Int (device_count f); Int (visit_count f);
             fill0 (Flt (avg_time f))]).
Proof.
  split; [reflexivity|]. split; [reflexivity|].
  split; [vm_compute; reflexivity|].
  apply (join_features_present_cell train_sample features_sample 0 0
           [Str "h1"; Flt 0.25%float] "h1").
  - reflexivity.
  - reflexivity.
  - reflexivity.
  - vm_compute. reflexivity.
Defined.

Lemma join_features_shape_witness :
  ∃ joined,
    wf_rows train_sample ∧
    join_features train_sample features_sample = Some joined ∧
    wf_rows joined ∧
    length (columns joined) = (length (columns train_sample) + 3)%nat.
Proof.
  assert (wf_rows train_sample) as Hwf by (repeat constructor).
  eexists. split; [exact Hwf|]. split; [vm_compute; reflexivity|].
  apply (join_features_shape train_sample _ features_sample Hwf).
  vm_compute. reflexivity.
Defined.

Lemma missing_hex_sound_witness :
  missing_hex train_sample features_sample = Some [Str "h3"] ∧
  ∃ ids,
    getitem "hex_id" train_sample = Some ids ∧
    (∀ v, v ∈ [Str "h3"] →
          v ∈ ids ∧ lookup_features features_sample v = None) ∧
    (∀ k, Str k ∈ ids → features_sample !! k = None →
          Str k ∈ [Str "h3"]) ∧
    (length [Str "h3"] ≤ length (rows train_sample))%nat.
Proof.
  split; [vm_compute; reflexivity|].
  apply (missing_hex_sound train_sample features_sample [Str "h3"]).
  vm_compute. reflexivity.
Defined.

Lemma trainer_inputs_witness :
  columns train_missing_target = ["hex_id"; "cost_of_living"] ∧
  wf_rows train_missing_target ∧
  key_clash train_missing_target 0 features_sample = false ∧
  ∃ train_merged X y,
    join_features train_missing_target features_sample = Some train_merged ∧
    drop_columns ["cost_of_living"; "hex_id"] train_merged = Some X ∧
    getitem "cost_of_living" train_merged = Some y ∧
    columns X = ["device_count"; "visit_count"; "avg_time"] ∧
    rows X = (λ row, feature_vector features_sample (cell_at row 0))
               <$> rows train_missing_target ∧
    y = (λ row, fill0 (cell_at row 1)) <$> rows train_missing_target.
Proof.
  assert (wf_rows train_missing_target) as Hwf by (repeat constructor).
  assert (key_clash train_missing_target 0 features_sample = false)
    as Hclash by (vm_compute; reflexivity).
  split; [reflexivity|]. split; [exact Hwf|]. split; [exact Hclash|].
  exact (trainer_inputs train_missing_target features_sample eq_refl Hwf
           Hclash).
Defined.

Lemma predictor_inputs_witness :
  columns test_sample = ["hex_id"; "cost_of_living"] ∧
  wf_rows test_sample ∧
  key_clash test_sample 0 features_sample = false ∧
  ∃ test_merged,
    join_features test_sample features_sample = Some test_merged ∧
    align ["device_count"; "visit_count"; "avg_time"] test_merged =
      {| columns := ["device_count"; "visit_count"; "avg_time"];
         rows := (λ row, feature_vector features_sample (cell_at row 0))
                   <$> rows test_sample |}.
Proof.
  assert (wf_rows test_sample) as Hwf by (repeat constructor).
  assert (key_clash test_sample 0 features_sample = false)
    as Hclash by (vm_compute; reflexivity).
  split; [reflexivity|]. split; [exact Hwf|]. split; [exact Hclash|].
  exact (predictor_inputs test_sample features_sample eq_refl Hwf Hclash).
Defined.

Lemma trainer_key_error_witness :
  ("cost_of_living" ∉ columns train_without_target) ∧
  join_features train_without_target features_sample
    ≫= Trainer (est := mean_regressor) = None.
Proof.
  assert ("cost_of_living" ∉ columns train_without_target) as Hnin.
  { simpl. intros Hin. apply list_elem_of_singleton in Hin. discriminate. }
  split; [exact Hnin|].
  exact (trainer_key_error (est := mean_regressor) train_without_target
           features_sample Hnin).
Defined.

Lemma predictor_ignores_earlier_predictions_witness :
  let cols := ["device_count"; "visit_count"; "avg_time"] in
  wf_rows test_sample ∧
  "cost_of_living" ∈ columns test_sample ∧
  ("cost_of_living" ∉ cols) ∧
  setitem "cost_of_living" [Flt 0.5%float; Flt 0.5%float] test_sample =
    Some test_predicted ∧
  Predictor (est := mean_regressor) 0.25%float cols features_sample
    test_predicted =
  Predictor (est := mean_regressor) 0.25%float cols features_sample
    test_sample.
Proof.
  assert (wf_rows test_sample) as Hwf by (repeat constructor).
  assert ("cost_of_living" ∈ columns test_sample) as Hin
    by (simpl; right; left).
  assert ("cost_of_living" ∉
          ["device_count"; "visit_count"; "avg_time"]) as Hnin.
  { intros H. repeat (apply elem_of_cons in H as [H|H]; [discriminate|]).
    by apply not_elem_of_nil in H. }
  split; [exact Hwf|]. split; [exact Hin|]. split; [exact Hnin|].
  split; [reflexivity|].
  exact (predictor_ignores_earlier_predictions (est := mean_regressor)
           0.25%float _ features_sample test_sample test_predicted
           [Flt 0.5%float; Flt 0.5%float] Hwf Hin Hnin eq_refl).
Defined.

Lemma trainer_inputs_total_witness :
  ∃ train_merged,
    "cost_of_living" ∈ columns train_with_text ∧
    join_features train_with_text features_sample = Some train_merged ∧
    ∃ X y,
      drop_columns ["cost_of_living"; "hex_id"] train_merged = Some X ∧
      getitem "cost_of_living" train_merged = Some y ∧
      length (rows X) = length (rows train_with_text) ∧
      length y = length (rows train_with_text) ∧
      ("hex_id" ∉ columns X) ∧ ("cost_of_living" ∉ columns X).
Proof.
  assert ("cost_of_living" ∈ columns train_with_text) as Htgt
    by (simpl; right; left).
  eexists. split; [exact Htgt|]. split; [vm_compute; reflexivity|].
  apply (trainer_inputs_total train_with_text _ features_sample Htgt).
  vm_compute. reflexivity.
Defined.

Lemma join_features_fills_missing_witness :
  ∃ joined,
    join_features train_missing_target features_sample = Some joined ∧
    (∀ row v, row ∈ rows joined → v ∈ row → isna v = false) ∧
    join_features (fillna train_missing_target) features_sample =
      Some joined.
Proof.
  eexists. split; [vm_compute; reflexivity|].
  apply (join_features_fills_missing train_missing_target _ features_sample).
  vm_compute. reflexivity.
Defined.

Lemma align_idempotent_witness :
  let cols := ["device_count"; "visit_count"; "avg_time"; "extra"] in
  NoDup cols ∧
  align cols (align cols test_predicted) = align cols test_predicted.
Proof.
  assert (NoDup ["device_count"; "visit_count"; "avg_time"; "extra"])
    as Hnd by (apply (bool_decide_unpack _); vm_compute; exact I).
  split; [exact Hnd|].
  exact (align_idempotent _ test_predicted Hnd).
Defined.
